(** * LZ77 (marker 0x11) decompressor: embedding of [src/main.py]

    The two functions of the decoding core, [GetUncompressedSize] and
    [UncompressLZ77], are embedded as Rocq functions over Python values:

    - a Python [int] is a [Z] (unbounded, so the shifts never wrap);
    - a [bytes] or [bytearray] object is a [list Z] whose elements are
      in [0, 256) (predicate [is_bytes]);
    - subscripting follows Python: an index [i] with [-len <= i < 0]
      designates position [len + i], any other index outside
      [0, len) raises [IndexError];
    - a raised exception is the result [Raise e]; it propagates through
      the loops exactly as an uncaught Python exception does;
    - the [while] loop runs on fuel; [UncompressLZ77] gives it
      [len(inData)] units and [while_loop_fuel] shows that this is
      always enough.

    The advisory [print] of the pass-through path writes to the console
    only and is not part of the value returned; it is left out.  Memory
    is not bounded: [bytearray(n)] returns for every [n >= 0].  A store
    in the buffer does not test the value stored: on bytes, the values
    stored are bytes of the input or of the buffer. *)

From Stdlib Require Import ZArith Lia Bool.
From stdpp Require Import base numbers list strings.

Local Open Scope Z_scope.

(** ** Results and exceptions *)

Inductive exn : Set := IndexError | ValueError.

Inductive result (A : Type) : Type :=
| Ok (a : A)
| Raise (e : exn)
| OutOfFuel.

Arguments Ok {A} a.
Arguments Raise {A} e.
Arguments OutOfFuel {A}.

Definition bind {A B : Type} (m : result A) (k : A -> result B) : result B :=
  match m with
  | Ok a => k a
  | Raise e => Raise e
  | OutOfFuel => OutOfFuel
  end.

Notation "x <- m ;; k" := (bind m (fun x => k))
  (at level 100, m at next level, right associativity).

(** ** Python sequences *)

Definition len (l : list Z) : Z := Z.of_nat (length l).

(** The position designated by subscript [i] in a sequence of [n] items. *)
Definition py_index (n i : Z) : result Z :=
  if (0 <=? i) && (i <? n) then Ok i
  else if (- n <=? i) && (i <? 0) then Ok (n + i)
  else Raise IndexError.

(** [l[i]] *)
Definition getitem (l : list Z) (i : Z) : result Z :=
  p <- py_index (len l) i ;;
  match l !! Z.to_nat p with
  | Some b => Ok b
  | None => Raise IndexError
  end.

(** [l[i] = v] *)
Definition setitem (l : list Z) (i v : Z) : result (list Z) :=
  p <- py_index (len l) i ;;
  Ok (<[Z.to_nat p := v]> l).

(** [bytearray(n)] *)
Definition bytearray (n : Z) : result (list Z) :=
  if n <? 0 then Raise ValueError else Ok (replicate (Z.to_nat n) 0).

(** [range(n)] *)
Definition range (n : Z) : list Z := seqZ 0 n.

(** The values a [bytes] object can hold. *)
Definition is_bytes (l : list Z) : bool :=
  forallb (fun b => (0 <=? b) && (b <? 256)) l.

(** ** [for] loops with [break] *)

Inductive flow (S : Type) : Type :=
| Next (s : S)
| Break (s : S).

Arguments Next {S} s.
Arguments Break {S} s.

(** The state a round leaves, whether it goes on or breaks. *)
Definition flow_state {S : Type} (r : flow S) : S :=
  match r with Next s => s | Break s => s end.

Fixpoint for_each {S : Type} (xs : list Z)
    (body : Z -> S -> result (flow S)) (s : S) : result S :=
  match xs with
  | [] => Ok s
  | x :: xs' =>
      r <- body x s ;;
      match r with
      | Next s' => for_each xs' body s'
      | Break s' => Ok s'
      end
  end.

(** ** [GetUncompressedSize] *)

Definition GetUncompressedSize (inData : list Z) : result (Z * Z) :=
  let offset := 4 in
  b1 <- getitem inData 1 ;;
  b2 <- getitem inData 2 ;;
  b3 <- getitem inData 3 ;;
  let outSize := Z.lor (Z.lor b1 (Z.shiftl b2 8)) (Z.shiftl b3 16) in
  if outSize =? 0 then
    b4 <- getitem inData 4 ;;
    b5 <- getitem inData 5 ;;
    b6 <- getitem inData 6 ;;
    b7 <- getitem inData 7 ;;
    let outSize :=
      Z.lor (Z.lor (Z.lor b4 (Z.shiftl b5 8)) (Z.shiftl b6 16)) (Z.shiftl b7 24) in
    Ok (outSize, offset + 4)
  else Ok (outSize, offset).

(** ** [UncompressLZ77] *)

(** The decoding cursor and the output buffer, the variables the two
    loops of [UncompressLZ77] update. *)
Record state : Type := State {
  offset : Z;
  outIndex : Z;
  outData : list Z
}.

(** A back-reference token read at [offset]: the bytes [first],
    [second] and, by the value of [first], [third] and [fourth]; the
    result is [(pos, copylen, offset)] with [offset] the cursor after the
    token. *)
Definition read_backref (inData : list Z) (offset : Z) : result (Z * Z * Z) :=
  first <- getitem inData offset ;;
  let offset := offset + 1 in
  second <- getitem inData offset ;;
  let offset := offset + 1 in
  if first <? 32 then
    third <- getitem inData offset ;;
    let offset := offset + 1 in
    if 16 <=? first then
      fourth <- getitem inData offset ;;
      let offset := offset + 1 in
      let pos := Z.lor (Z.shiftl (Z.land third 0xF) 8) fourth + 1 in
      let copylen :=
        Z.lor (Z.lor (Z.shiftl second 4) (Z.shiftl (Z.land first 0xF) 12))
              (Z.shiftr third 4) + 273 in
      Ok (pos, copylen, offset)
    else
      let pos := Z.lor (Z.shiftl (Z.land second 0xF) 8) third + 1 in
      let copylen :=
        Z.lor (Z.shiftl (Z.land first 0xF) 4) (Z.shiftr second 4) + 17 in
      Ok (pos, copylen, offset)
  else
    let pos := Z.lor (Z.shiftl (Z.land first 0xF) 8) second + 1 in
    let copylen := Z.shiftr first 4 + 1 in
    Ok (pos, copylen, offset).

(** One round of [for y in range(copylen)]:
    [outData[outIndex + y] = outData[outIndex - pos + y]]. *)
Definition copy_byte (outIndex pos : Z) (y : Z) (outData : list Z)
    : result (flow (list Z)) :=
  b <- getitem outData (outIndex - pos + y) ;;
  outData <- setitem outData (outIndex + y) b ;;
  Ok (Next outData).

Definition copy (outIndex pos copylen : Z) (outData : list Z)
    : result (list Z) :=
  for_each (range copylen) (copy_byte outIndex pos) outData.

(** One round of [for x in reversed(range(8))]. *)
Definition token (inData : list Z) (inLength outLength flags : Z)
    (x : Z) (st : state) : result (flow state) :=
  if (outLength <=? outIndex st) || (inLength <=? offset st) then
    Ok (Break st)
  else if negb (Z.land flags (Z.shiftl 1 x) =? 0) then
    r <- read_backref inData (offset st) ;;
    let '(pos, copylen, offset') := r in
    outData' <- copy (outIndex st) pos copylen (outData st) ;;
    Ok (Next (State offset' (outIndex st + copylen) outData'))
  else
    b <- getitem inData (offset st) ;;
    outData' <- setitem (outData st) (outIndex st) b ;;
    Ok (Next (State (offset st + 1) (outIndex st + 1) outData')).

(** [while outIndex < outLength and offset < inLength] *)
Fixpoint while_loop (fuel : nat) (inData : list Z) (inLength outLength : Z)
    (st : state) : result state :=
  if (outIndex st <? outLength) && (offset st <? inLength) then
    match fuel with
    | O => OutOfFuel
    | S fuel' =>
        flags <- getitem inData (offset st) ;;
        st' <- for_each (rev (range 8))
                 (token inData inLength outLength flags)
                 (State (offset st + 1) (outIndex st) (outData st)) ;;
        while_loop fuel' inData inLength outLength st'
    end
  else Ok st.

(** The part of [UncompressLZ77] after the marker test, up to the
    [return]: the cursor and the buffer as the [while] loop leaves them. *)
Definition decode (inData : list Z) : result state :=
  let inLength := len inData in
  r <- GetUncompressedSize inData ;;
  let '(outLength, offset) := r in
  outData <- bytearray outLength ;;
  let outIndex := 0 in
  while_loop (length inData) inData inLength outLength
    (State offset outIndex outData).

Definition UncompressLZ77 (inData : list Z) : result (list Z) :=
  marker <- getitem inData 0 ;;
  if negb (marker =? 0x11) then Ok inData
  else
    st <- decode inData ;;
    Ok (outData st).


(** ** Notions used by the statements *)

(** The [n] low bytes of [L], least significant first. *)
Fixpoint le_bytes (n : nat) (L : Z) : list Z :=
  match n with
  | O => []
  | S n' => L mod 256 :: le_bytes n' (L / 256)
  end.

(** [for_visits body xs s x t]: the loop [for_each xs body s] gets to run
    [body x] on state [t]. *)
Inductive for_visits {S : Type} (body : Z -> S -> result (flow S))
    : list Z -> S -> Z -> S -> Prop :=
| for_visits_here x xs s :
    for_visits body (x :: xs) s x s
| for_visits_later x xs s s' y t :
    body x s = Ok (Next s') ->
    for_visits body xs s' y t ->
    for_visits body (x :: xs) s y t.

(** [while_visits inData inLength outLength fuel st flags x t]: the
    [while] loop started in [st] gets to the token slot of bit [x] of a
    flag byte [flags] with the cursor and buffer [t]. *)
Inductive while_visits (inData : list Z) (inLength outLength : Z)
    : nat -> state -> Z -> Z -> state -> Prop :=
| while_visits_here fuel st flags x t :
    (outIndex st <? outLength) && (offset st <? inLength) = true ->
    getitem inData (offset st) = Ok flags ->
    for_visits (token inData inLength outLength flags) (rev (range 8))
      (State (offset st + 1) (outIndex st) (outData st)) x t ->
    while_visits inData inLength outLength (S fuel) st flags x t
| while_visits_later fuel st flags st' flags' x t :
    (outIndex st <? outLength) && (offset st <? inLength) = true ->
    getitem inData (offset st) = Ok flags ->
    for_each (rev (range 8)) (token inData inLength outLength flags)
      (State (offset st + 1) (outIndex st) (outData st)) = Ok st' ->
    while_visits inData inLength outLength fuel st' flags' x t ->
    while_visits inData inLength outLength (S fuel) st flags' x t.

(** [reaches inData outLength flags x t]: [UncompressLZ77], on the input
    [inData] with marker 0x11 and declared length [outLength], gets to the
    token slot of bit [x] of a flag byte [flags] with the cursor and
    buffer [t]. *)
Definition reaches (inData : list Z) (outLength flags x : Z) (t : state)
    : Prop :=
  exists start buf,
    getitem inData 0 = Ok 0x11 /\
    GetUncompressedSize inData = Ok (outLength, start) /\
    bytearray outLength = Ok buf /\
    while_visits inData (len inData) outLength (length inData)
      (State start 0 buf) flags x t.

(** [backref_at inData outLength flags x t pos copylen offset']: the
    slot reached holds a back-reference token, of distance [pos] and
    length [copylen], whose last byte is just before [offset']. *)
Definition backref_at (inData : list Z) (outLength flags x : Z) (t : state)
    (pos copylen offset' : Z) : Prop :=
  reaches inData outLength flags x t /\
  (outLength <=? outIndex t) || (len inData <=? offset t) = false /\
  negb (Z.land flags (Z.shiftl 1 x) =? 0) = true /\
  read_backref inData (offset t) = Ok (pos, copylen, offset').

(** What the loops keep true of the cursor and the buffer: the buffer
    has its declared length, the cursor stays inside both sequences, and
    nothing is written at or after [outIndex]. *)
Definition inv (inLength outLength : Z) (st : state) : Prop :=
  len (outData st) = outLength /\
  0 <= outIndex st <= outLength /\
  0 <= offset st <= inLength /\
  forall i : nat, outIndex st <= Z.of_nat i < outLength ->
    outData st !! i = Some 0.

(** [extends st st']: [st'] is [st] after more decoding: what was
    written below [outIndex st] is still there. *)
Definition extends (st st' : state) : Prop :=
  outIndex st <= outIndex st' /\
  forall i : nat, Z.of_nat i < outIndex st ->
    outData st' !! i = outData st !! i.

(** ** Between tokens

    [while_heads inData inLength outLength fuel st t]: the [while] loop
    started in [st] gets to test its condition with the cursor and buffer
    [t], every flag byte before being done with. *)
Inductive while_heads (inData : list Z) (inLength outLength : Z)
    : nat -> state -> state -> Prop :=
| while_heads_here fuel st :
    while_heads inData inLength outLength fuel st st
| while_heads_later fuel st flags st' t :
    (outIndex st <? outLength) && (offset st <? inLength) = true ->
    getitem inData (offset st) = Ok flags ->
    for_each (rev (range 8)) (token inData inLength outLength flags)
      (State (offset st + 1) (outIndex st) (outData st)) = Ok st' ->
    while_heads inData inLength outLength fuel st' t ->
    while_heads inData inLength outLength (S fuel) st t.

(** [between_tokens inData outLength t]: [UncompressLZ77], on the input
    [inData] with marker 0x11 and declared length [outLength], gets with
    the cursor and buffer [t] to a point between two tokens: where it is
    about to test the [while] condition (before a flag byte), or where it
    is about to decode a token slot (before a token). *)
Definition between_tokens (inData : list Z) (outLength : Z) (t : state)
    : Prop :=
  exists start buf,
    getitem inData 0 = Ok 0x11 /\
    GetUncompressedSize inData = Ok (outLength, start) /\
    bytearray outLength = Ok buf /\
    (while_heads inData (len inData) outLength (length inData)
       (State start 0 buf) t \/
     exists flags x,
       while_visits inData (len inData) outLength (length inData)
         (State start 0 buf) flags x t).

(** ** Moving the token section

    [shift d st] is [st] with the input cursor [d] bytes further;
    [on_result f r] is [r] with [f] applied to what it returns. *)
Definition shift (d : Z) (st : state) : state :=
  State (offset st + d) (outIndex st) (outData st).

Definition shift_flow (d : Z) (r : flow state) : flow state :=
  match r with
  | Next st => Next (shift d st)
  | Break st => Break (shift d st)
  end.

Definition on_result {A B : Type} (f : A -> B) (r : result A) : result B :=
  match r with
  | Ok a => Ok (f a)
  | Raise e => Raise e
  | OutOfFuel => OutOfFuel
  end.

(** ** [decompress_file]

    The file system and [pathlib] are not part of the program: they are
    taken as an interface [os] over a type of worlds, with no assumption
    on what its operations do.  [read_file p] stands for
    [open(p, 'rb')] followed by [read()], [write_file p data] for
    [open(p, 'wb')] followed by [write(data)]; both can raise, and what
    they raise is an [OSError], [FileNotFoundError] being the one the
    program names.  [suffix], [lower] and [strip_suffix] stand for
    [Path(p).suffix], [str.lower] and [str(Path(p).with_suffix(''))].
    The messages printed are left out, as in [UncompressLZ77]. *)

Inductive os_exn : Set := FileNotFoundError | OSError.

Inductive raised : Set :=
| FromDecoder (e : exn)
| FromOS (e : os_exn).

Inductive outcome (A : Type) : Type :=
| Returned (a : A)
| Raised (e : raised)
| Unfinished.

Arguments Returned {A} a.
Arguments Raised {A} e.
Arguments Unfinished {A}.

Record os (W : Type) : Type := {
  read_file : string -> W -> W * (list Z + os_exn);
  write_file : string -> list Z -> W -> W * (unit + os_exn);
  suffix : string -> string;
  lower : string -> string;
  strip_suffix : string -> string
}.

Arguments read_file {W} _ _ _.
Arguments write_file {W} _ _ _ _.
Arguments suffix {W} _ _.
Arguments lower {W} _ _.
Arguments strip_suffix {W} _ _.

(** The output path [decompress_file] picks when it is given none. *)
Definition default_output_path {W : Type} (sys : os W) (input_path : string)
    : string :=
  if String.eqb (lower sys (suffix sys input_path)) ".lz"
  then strip_suffix sys input_path
  else String.append input_path ".dec".

(** The [try] block of [decompress_file]. *)
Definition decompress_file_try {W : Type} (sys : os W) (input_path : string)
    (output_path : option string) (w : W) : W * outcome bool :=
  let '(w, r) := read_file sys input_path w in
  match r with
  | inr e => (w, Raised (FromOS e))
  | inl compressed_data =>
      match UncompressLZ77 compressed_data with
      | Raise e => (w, Raised (FromDecoder e))
      | OutOfFuel => (w, Unfinished)
      | Ok decompressed_data =>
          let output_path :=
            match output_path with
            | None => default_output_path sys input_path
            | Some p => p
            end in
          let '(w, r) := write_file sys output_path decompressed_data w in
          match r with
          | inr e => (w, Raised (FromOS e))
          | inl _ => (w, Returned true)
          end
      end
  end.

(** [decompress_file]: the [try] block under its two handlers,
    [except FileNotFoundError] and [except Exception]. *)
Definition decompress_file {W : Type} (sys : os W) (input_path : string)
    (output_path : option string) (w : W) : W * outcome bool :=
  let '(w, r) := decompress_file_try sys input_path output_path w in
  match r with
  | Raised (FromOS FileNotFoundError) => (w, Returned false)
  | Raised _ => (w, Returned false)
  | Returned b => (w, Returned b)
  | Unfinished => (w, Unfinished)
  end.

(** A file system in memory, with paths that have no suffix; the
    statements about [decompress_file] are exercised on it. *)
Fixpoint mem_lookup (p : string) (w : list (string * list Z))
    : option (list Z) :=
  match w with
  | [] => None
  | (q, d) :: w' => if String.eqb p q then Some d else mem_lookup p w'
  end.

Definition mem_os : os (list (string * list Z)) := {|
  read_file p w :=
    (w, match mem_lookup p w with
        | Some d => inl d
        | None => inr FileNotFoundError
        end);
  write_file p d w := ((p, d) :: w, inl tt);
  suffix _ := ""%string;
  lower p := p;
  strip_suffix p := p
|}.

(** The same file system with paths that all have the suffix [.LZ],
    lowered to [.lz], and lose their last three characters with it. *)
Definition mem_os_lz : os (list (string * list Z)) := {|
  read_file := read_file mem_os;
  write_file := write_file mem_os;
  suffix _ := ".LZ"%string;
  lower _ := ".lz"%string;
  strip_suffix p := String.substring 0 (String.length p - 3) p
|}.

(** * Properties *)

(** Case analysis on the result of the loop at the head of the goal. *)
Ltac case_for_each s E :=
  match goal with
  | |- context [for_each ?xs ?body ?s0] =>
      destruct (for_each xs body s0) as [s| |] eqn:E
  end.

(** ** Subscripting *)

Lemma py_index_Ok n i p :
  py_index n i = Ok p -> 0 <= p < n /\ (p = i \/ (i < 0 /\ p = n + i)).
Proof.
  unfold py_index. intros H.
  destruct (0 <=? i) eqn:E1, (i <? n) eqn:E2, (- n <=? i) eqn:E3,
    (i <? 0) eqn:E4; simpl in H; inversion H; subst; lia.
Qed.

Lemma py_index_in n i : 0 <= i < n -> py_index n i = Ok i.
Proof.
  intros H. unfold py_index.
  destruct (0 <=? i) eqn:E1, (i <? n) eqn:E2; simpl; try reflexivity; lia.
Qed.

Lemma py_index_wrap n i : - n <= i < 0 -> py_index n i = Ok (n + i).
Proof.
  intros H. unfold py_index.
  destruct (0 <=? i) eqn:E1, (- n <=? i) eqn:E3, (i <? 0) eqn:E4; simpl;
    try reflexivity; lia.
Qed.

Lemma py_index_out n i : i < - n \/ n <= i -> py_index n i = Raise IndexError.
Proof.
  intros H. unfold py_index.
  destruct (0 <=? i) eqn:E1, (i <? n) eqn:E2, (- n <=? i) eqn:E3,
    (i <? 0) eqn:E4; simpl; try reflexivity; lia.
Qed.

Lemma py_index_fuel n i : py_index n i <> OutOfFuel.
Proof.
  unfold py_index.
  destruct ((0 <=? i) && (i <? n)); [discriminate|].
  destruct ((- n <=? i) && (i <? 0)); discriminate.
Qed.

Lemma getitem_in (l : list Z) i b :
  0 <= i -> l !! Z.to_nat i = Some b -> getitem l i = Ok b.
Proof.
  intros Hi Hl. unfold getitem.
  pose proof (lookup_lt_Some _ _ _ Hl) as Hlt.
  rewrite py_index_in by (unfold len; lia). simpl. now rewrite Hl.
Qed.

Lemma getitem_Ok (l : list Z) i b :
  getitem l i = Ok b ->
  exists p, py_index (len l) i = Ok p /\ l !! Z.to_nat p = Some b.
Proof.
  unfold getitem. destruct (py_index (len l) i) as [p| |] eqn:E; simpl;
    try discriminate.
  destruct (l !! Z.to_nat p) eqn:El; intros H; inversion H; subst; eauto.
Qed.

Lemma getitem_Ok_nonneg (l : list Z) i b :
  0 <= i -> getitem l i = Ok b -> i < len l /\ l !! Z.to_nat i = Some b.
Proof.
  intros Hi H. apply getitem_Ok in H as (p & Hp & Hl).
  apply py_index_Ok in Hp as [Hr [->|[? _]]]; [split; [lia | assumption] | lia].
Qed.

Lemma getitem_wrap (l : list Z) i :
  - len l <= i < 0 -> getitem l i = getitem l (len l + i).
Proof.
  intros H. unfold getitem.
  rewrite py_index_wrap by lia. rewrite py_index_in by lia. reflexivity.
Qed.

Lemma getitem_out (l : list Z) i :
  i < - len l \/ len l <= i -> getitem l i = Raise IndexError.
Proof. intros H. unfold getitem. now rewrite py_index_out. Qed.

Lemma getitem_fuel (l : list Z) i : getitem l i <> OutOfFuel.
Proof.
  unfold getitem. pose proof (py_index_fuel (len l) i).
  destruct (py_index (len l) i); simpl; try congruence.
  destruct (l !! Z.to_nat a); discriminate.
Qed.

Lemma getitem_raise (l : list Z) i e : getitem l i = Raise e -> e = IndexError.
Proof.
  unfold getitem, py_index.
  destruct ((0 <=? i) && (i <? len l)); simpl.
  - destruct (l !! Z.to_nat i); congruence.
  - destruct ((- len l <=? i) && (i <? 0)); simpl; [|congruence].
    destruct (l !! Z.to_nat (len l + i)); congruence.
Qed.

Lemma getitem_app (l t : list Z) i b :
  0 <= i -> getitem l i = Ok b -> getitem (l ++ t) i = Ok b.
Proof.
  intros Hi H. apply getitem_Ok_nonneg in H as [Hlt Hl]; [|assumption].
  apply getitem_in; [assumption|].
  rewrite lookup_app_l; [assumption|]. unfold len in Hlt. lia.
Qed.

Lemma getitem_is_bytes (l : list Z) i b :
  is_bytes l = true -> getitem l i = Ok b -> 0 <= b < 256.
Proof.
  intros Hb H. apply getitem_Ok in H as (p & _ & Hl).
  unfold is_bytes in Hb. rewrite forallb_forall in Hb.
  apply list_elem_of_lookup_2, list_elem_of_In in Hl.
  specialize (Hb b Hl). lia.
Qed.

Lemma setitem_in (l : list Z) i v :
  0 <= i < len l -> setitem l i v = Ok (<[Z.to_nat i := v]> l).
Proof. intros H. unfold setitem. now rewrite py_index_in. Qed.

Lemma setitem_out (l : list Z) i v :
  len l <= i -> setitem l i v = Raise IndexError.
Proof. intros H. unfold setitem. rewrite py_index_out; [reflexivity | lia]. Qed.

Lemma setitem_Ok_nonneg (l l' : list Z) i v :
  0 <= i -> setitem l i v = Ok l' ->
  i < len l /\ l' = <[Z.to_nat i := v]> l.
Proof.
  intros Hi. unfold setitem.
  destruct (py_index (len l) i) as [p| |] eqn:E; simpl; try discriminate.
  apply py_index_Ok in E as [Hr [->|[? _]]]; [|lia].
  intros H; inversion H; split; [lia | reflexivity].
Qed.

Lemma setitem_fuel (l : list Z) i v : setitem l i v <> OutOfFuel.
Proof.
  unfold setitem. pose proof (py_index_fuel (len l) i).
  destruct (py_index (len l) i); simpl; congruence.
Qed.

Lemma len_insert (l : list Z) (i : nat) v : len (<[i := v]> l) = len l.
Proof. unfold len. now rewrite length_insert. Qed.

Lemma len_app (l t : list Z) : len (l ++ t) = len l + len t.
Proof. unfold len. rewrite length_app. lia. Qed.

(** ** Bit arithmetic *)

Lemma lor_shiftl_add a b n :
  0 <= n -> 0 <= a < 2 ^ n -> Z.lor a (Z.shiftl b n) = a + b * 2 ^ n.
Proof.
  intros Hn Ha. rewrite Z.shiftl_mul_pow2 by assumption.
  assert (Hland : Z.land a (b * 2 ^ n) = 0).
  { apply Z.bits_inj'. intros m Hm. rewrite Z.land_spec, Z.bits_0.
    destruct (Z.lt_ge_cases m n) as [Hlt|Hge].
    - rewrite Z.mul_pow2_bits_low by assumption. apply andb_false_r.
    - rewrite <- (Z.mod_small a (2 ^ n)) by assumption.
      rewrite Z.mod_pow2_bits_high by lia. reflexivity. }
  rewrite <- Z.lxor_lor by assumption.
  symmetry. now apply Z.add_nocarry_lxor.
Qed.

Lemma lor_nonneg a b : 0 <= a -> 0 <= b -> 0 <= Z.lor a b.
Proof. intros. now apply Z.lor_nonneg. Qed.

Lemma land_15_nonneg a : 0 <= Z.land a 15.
Proof. apply Z.land_nonneg. right. lia. Qed.

Lemma shiftl_nonneg a n : 0 <= a -> 0 <= Z.shiftl a n.
Proof. intros. now apply Z.shiftl_nonneg. Qed.

Lemma shiftr_nonneg a n : 0 <= a -> 0 <= Z.shiftr a n.
Proof. intros. now apply Z.shiftr_nonneg. Qed.

Lemma le_bytes_3_value L :
  0 <= L < 2 ^ 24 ->
  Z.lor (Z.lor (L mod 256) (Z.shiftl ((L / 256) mod 256) 8))
        (Z.shiftl ((L / 256 / 256) mod 256) 16) = L.
Proof.
  intros HL.
  rewrite (lor_shiftl_add (L mod 256)) by (Z.div_mod_to_equations; lia).
  rewrite lor_shiftl_add by (Z.div_mod_to_equations; lia).
  Z.div_mod_to_equations; lia.
Qed.

Lemma le_bytes_4_value L :
  0 <= L < 2 ^ 32 ->
  Z.lor (Z.lor (Z.lor (L mod 256) (Z.shiftl ((L / 256) mod 256) 8))
               (Z.shiftl ((L / 256 / 256) mod 256) 16))
        (Z.shiftl ((L / 256 / 256 / 256) mod 256) 24) = L.
Proof.
  intros HL.
  rewrite (lor_shiftl_add (L mod 256)) by (Z.div_mod_to_equations; lia).
  rewrite (lor_shiftl_add _ _ 16) by (Z.div_mod_to_equations; lia).
  rewrite lor_shiftl_add by (Z.div_mod_to_equations; lia).
  Z.div_mod_to_equations; lia.
Qed.

(** ** The header *)

(** C6. A stream whose bytes 1-3 hold a length [L], [0 < L < 2^24], in
    little-endian order has [GetUncompressedSize] return [L] as the output
    length and 4 as the offset of the token section. *)
Theorem GetUncompressedSize_short (marker L : Z) (rest : list Z) :
  0 < L < 2 ^ 24 ->
  GetUncompressedSize (marker :: le_bytes 3 L ++ rest) = Ok (L, 4).
Proof.
  intros HL. unfold GetUncompressedSize. cbn [le_bytes app].
  rewrite (getitem_in _ 1 (L mod 256)) by (reflexivity || lia).
  rewrite (getitem_in _ 2 ((L / 256) mod 256)) by (reflexivity || lia).
  rewrite (getitem_in _ 3 ((L / 256 / 256) mod 256)) by (reflexivity || lia).
  cbn [bind]. rewrite le_bytes_3_value by lia.
  destruct (L =? 0) eqn:E; [lia | reflexivity].
Qed.

Lemma GetUncompressedSize_short_witness :
  GetUncompressedSize (0x11 :: le_bytes 3 70000 ++ [1; 2; 3]) = Ok (70000, 4).
Proof. apply GetUncompressedSize_short. lia. Defined.

(** C7. A stream whose bytes 1-3 are zero and whose bytes 4-7 hold a
    length [L] as a little-endian 32-bit number has [GetUncompressedSize]
    return [L] as the output length and 8 as the offset of the token
    section. *)
Theorem GetUncompressedSize_extended (marker L : Z) (rest : list Z) :
  0 <= L < 2 ^ 32 ->
  GetUncompressedSize (marker :: 0 :: 0 :: 0 :: le_bytes 4 L ++ rest)
  = Ok (L, 8).
Proof.
  intros HL. unfold GetUncompressedSize. cbn [le_bytes app].
  rewrite (getitem_in _ 1 0) by (reflexivity || lia).
  rewrite (getitem_in _ 2 0) by (reflexivity || lia).
  rewrite (getitem_in _ 3 0) by (reflexivity || lia).
  cbn [bind]. change (Z.lor (Z.lor 0 (Z.shiftl 0 8)) (Z.shiftl 0 16) =? 0)
    with true. cbv iota.
  rewrite (getitem_in _ 4 (L mod 256)) by (reflexivity || lia).
  rewrite (getitem_in _ 5 ((L / 256) mod 256)) by (reflexivity || lia).
  rewrite (getitem_in _ 6 ((L / 256 / 256) mod 256)) by (reflexivity || lia).
  rewrite (getitem_in _ 7 ((L / 256 / 256 / 256) mod 256))
    by (reflexivity || lia).
  cbn [bind]. now rewrite le_bytes_4_value by lia.
Qed.

Lemma GetUncompressedSize_extended_witness :
  GetUncompressedSize (0x11 :: 0 :: 0 :: 0 :: le_bytes 4 16777216 ++ [9])
  = Ok (16777216, 8).
Proof. apply GetUncompressedSize_extended. lia. Defined.

(** The header is read whenever it is there: 4 bytes, or 8 when the
    3-byte length field is zero. *)
Lemma GetUncompressedSize_Ok_len (inData : list Z) outLength start :
  GetUncompressedSize inData = Ok (outLength, start) ->
  (start = 4 \/ start = 8) /\ start <= len inData.
Proof.
  unfold GetUncompressedSize.
  destruct (getitem inData 1) as [b1| |] eqn:E1; simpl; try discriminate.
  destruct (getitem inData 2) as [b2| |] eqn:E2; simpl; try discriminate.
  destruct (getitem inData 3) as [b3| |] eqn:E3; simpl; try discriminate.
  apply getitem_Ok_nonneg in E3 as [H3 _]; [|lia].
  destruct (_ =? 0).
  - destruct (getitem inData 4) as [b4| |] eqn:E4; simpl; try discriminate.
    destruct (getitem inData 5) as [b5| |] eqn:E5; simpl; try discriminate.
    destruct (getitem inData 6) as [b6| |] eqn:E6; simpl; try discriminate.
    destruct (getitem inData 7) as [b7| |] eqn:E7; simpl; try discriminate.
    apply getitem_Ok_nonneg in E7 as [H7 _]; [|lia].
    intros H; inversion H; subst. lia.
  - intros H; inversion H; subst. lia.
Qed.

(** C10. When the first byte is 0x11 and the input is shorter than its
    header (fewer than 4 bytes, or fewer than 8 bytes with bytes 1-3 all
    zero), reading the header raises [IndexError], and so does
    [UncompressLZ77]: no result is returned. *)
Theorem UncompressLZ77_short_header (inData : list Z) :
  getitem inData 0 = Ok 0x11 ->
  len inData < 4 \/
  (len inData < 8 /\ getitem inData 1 = Ok 0 /\ getitem inData 2 = Ok 0 /\
   getitem inData 3 = Ok 0) ->
  GetUncompressedSize inData = Raise IndexError /\
  UncompressLZ77 inData = Raise IndexError.
Proof.
  intros Hm Hshort.
  assert (Hh : GetUncompressedSize inData = Raise IndexError).
  { unfold GetUncompressedSize. destruct Hshort as [H4|(H8 & E1 & E2 & E3)].
    - destruct (getitem inData 1) as [b1| |] eqn:E1; simpl;
        [|now apply getitem_raise in E1; subst|now apply getitem_fuel in E1].
      destruct (getitem inData 2) as [b2| |] eqn:E2; simpl;
        [|now apply getitem_raise in E2; subst|now apply getitem_fuel in E2].
      rewrite (getitem_out inData 3) by lia. reflexivity.
    - rewrite E1, E2, E3. simpl.
      destruct (getitem inData 4) as [b4| |] eqn:E4; simpl;
        [|now apply getitem_raise in E4; subst|now apply getitem_fuel in E4].
      destruct (getitem inData 5) as [b5| |] eqn:E5; simpl;
        [|now apply getitem_raise in E5; subst|now apply getitem_fuel in E5].
      destruct (getitem inData 6) as [b6| |] eqn:E6; simpl;
        [|now apply getitem_raise in E6; subst|now apply getitem_fuel in E6].
      rewrite (getitem_out inData 7) by lia. reflexivity. }
  split; [assumption|].
  unfold UncompressLZ77, decode. rewrite Hm, Hh. reflexivity.
Qed.

Lemma UncompressLZ77_short_header_witness :
  (GetUncompressedSize [0x11; 0; 0; 0; 5; 0; 0] = Raise IndexError /\
   UncompressLZ77 [0x11; 0; 0; 0; 5; 0; 0] = Raise IndexError) /\
  (GetUncompressedSize [0x11; 8; 0] = Raise IndexError /\
   UncompressLZ77 [0x11; 8; 0] = Raise IndexError).
Proof.
  split.
  - apply UncompressLZ77_short_header; [reflexivity|].
    right. repeat split; reflexivity.
  - apply UncompressLZ77_short_header; [reflexivity|].
    left. reflexivity.
Defined.

(** ** The marker *)

(** C8. An input that has a first byte, and this byte is not 0x11, is
    returned as it is: no header is read and nothing is decoded. *)
Theorem UncompressLZ77_passthrough (marker : Z) (rest : list Z) :
  marker <> 0x11 ->
  UncompressLZ77 (marker :: rest) = Ok (marker :: rest).
Proof.
  intros Hm. unfold UncompressLZ77.
  rewrite (getitem_in _ 0 marker) by (reflexivity || lia). cbn [bind].
  destruct (marker =? 17) eqn:E; [lia | reflexivity].
Qed.

Lemma UncompressLZ77_passthrough_witness :
  UncompressLZ77 [0x10; 8; 0; 0; 0x80; 0x30] = Ok [0x10; 8; 0; 0; 0x80; 0x30].
Proof. apply UncompressLZ77_passthrough. lia. Defined.

(** ** Back-reference tokens *)

(** What a token slot does once its back-reference is read. *)
Lemma token_backref inData inLength outLength flags x st pos copylen offset' :
  (outLength <=? outIndex st) || (inLength <=? offset st) = false ->
  negb (Z.land flags (Z.shiftl 1 x) =? 0) = true ->
  read_backref inData (offset st) = Ok (pos, copylen, offset') ->
  token inData inLength outLength flags x st =
    (outData' <- copy (outIndex st) pos copylen (outData st) ;;
     Ok (Next (State offset' (outIndex st + copylen) outData'))).
Proof. intros Hg Hb Hr. unfold token. now rewrite Hg, Hb, Hr. Qed.

(** C1, as the code has it. A back-reference token whose first byte is
    below 16 takes 3 bytes ([first], [second], [third]); its distance is
    [(((second & 0xF) << 8) | third) + 1] and its length
    [(((first & 0xF) << 4) | (second >> 4)) + 17]; the token slot then
    copies with these and leaves the cursor 3 bytes further. *)
Theorem backref_below_16 inData inLength outLength flags x st
    first second third :
  (outLength <=? outIndex st) || (inLength <=? offset st) = false ->
  negb (Z.land flags (Z.shiftl 1 x) =? 0) = true ->
  getitem inData (offset st) = Ok first ->
  getitem inData (offset st + 1) = Ok second ->
  getitem inData (offset st + 2) = Ok third ->
  first < 16 ->
  let pos := Z.lor (Z.shiftl (Z.land second 0xF) 8) third + 1 in
  let copylen :=
    Z.lor (Z.shiftl (Z.land first 0xF) 4) (Z.shiftr second 4) + 17 in
  read_backref inData (offset st) = Ok (pos, copylen, offset st + 3) /\
  token inData inLength outLength flags x st =
    (outData' <- copy (outIndex st) pos copylen (outData st) ;;
     Ok (Next (State (offset st + 3) (outIndex st + copylen) outData'))).
Proof.
  intros Hg Hb H1 H2 H3 Hf pos copylen.
  assert (Hr : read_backref inData (offset st)
               = Ok (pos, copylen, offset st + 3)).
  { unfold read_backref. rewrite H1. cbn [bind]. rewrite H2. cbn [bind].
    destruct (first <? 32) eqn:E32; [|lia].
    replace (offset st + 1 + 1) with (offset st + 2) by lia.
    rewrite H3. cbn [bind].
    destruct (16 <=? first) eqn:E16; [lia|].
    replace (offset st + 2 + 1) with (offset st + 3) by lia. reflexivity. }
  split; [assumption|]. now apply token_backref.
Qed.

Lemma backref_below_16_witness :
  read_backref [0x11; 0x80; 0x05; 0x12; 0x34] 2 = Ok (565, 98, 5) /\
  token [0x11; 0x80; 0x05; 0x12; 0x34] 5 200 0x80 7 (State 2 0 []) =
    (outData' <- copy 0 565 98 [] ;; Ok (Next (State 5 98 outData'))).
Proof.
  apply (backref_below_16 [0x11; 0x80; 0x05; 0x12; 0x34] 5 200 0x80 7
           (State 2 0 []) 0x05 0x12 0x34); try reflexivity.
Defined.

(** C1 as worded fails: a token whose first byte is 0x15, in [16, 32),
    takes 4 bytes, not 3, and neither its distance nor its length is
    given by the 3-byte formulas. *)
Lemma backref_16_31_not_3_bytes :
  let inData := [0x15; 0x12; 0x34; 0x56] in
  let first := 0x15 in let second := 0x12 in let third := 0x34 in
  getitem inData 0 = Ok first /\ 16 <= first < 32 /\
  exists pos copylen offset',
    read_backref inData 0 = Ok (pos, copylen, offset') /\
    offset' <> 0 + 3 /\
    pos <> Z.lor (Z.shiftl (Z.land second 0xF) 8) third + 1 /\
    copylen <> Z.lor (Z.shiftl (Z.land first 0xF) 4) (Z.shiftr second 4) + 17.
Proof.
  cbv zeta. split; [reflexivity|]. split; [lia|].
  exists 1111, 21044, 4. repeat split; (reflexivity || (vm_compute; congruence)).
Qed.

(** C2, as the code has it. A back-reference token whose first byte is
    in [16, 32) takes 4 bytes ([first], [second], [third], [fourth]); its
    distance is [(((third & 0xF) << 8) | fourth) + 1] and its length
    [((second << 4) | ((first & 0xF) << 12) | (third >> 4)) + 273]; the
    token slot then copies with these and leaves the cursor 4 bytes
    further. *)
Theorem backref_16_to_31 inData inLength outLength flags x st
    first second third fourth :
  (outLength <=? outIndex st) || (inLength <=? offset st) = false ->
  negb (Z.land flags (Z.shiftl 1 x) =? 0) = true ->
  getitem inData (offset st) = Ok first ->
  getitem inData (offset st + 1) = Ok second ->
  getitem inData (offset st + 2) = Ok third ->
  getitem inData (offset st + 3) = Ok fourth ->
  16 <= first < 32 ->
  let pos := Z.lor (Z.shiftl (Z.land third 0xF) 8) fourth + 1 in
  let copylen :=
    Z.lor (Z.lor (Z.shiftl second 4) (Z.shiftl (Z.land first 0xF) 12))
          (Z.shiftr third 4) + 273 in
  read_backref inData (offset st) = Ok (pos, copylen, offset st + 4) /\
  token inData inLength outLength flags x st =
    (outData' <- copy (outIndex st) pos copylen (outData st) ;;
     Ok (Next (State (offset st + 4) (outIndex st + copylen) outData'))).
Proof.
  intros Hg Hb H1 H2 H3 H4 Hf pos copylen.
  assert (Hr : read_backref inData (offset st)
               = Ok (pos, copylen, offset st + 4)).
  { unfold read_backref. rewrite H1. cbn [bind]. rewrite H2. cbn [bind].
    destruct (first <? 32) eqn:E32; [|lia].
    replace (offset st + 1 + 1) with (offset st + 2) by lia.
    rewrite H3. cbn [bind].
    destruct (16 <=? first) eqn:E16; [|lia].
    replace (offset st + 2 + 1) with (offset st + 3) by lia.
    rewrite H4. cbn [bind].
    replace (offset st + 3 + 1) with (offset st + 4) by lia. reflexivity. }
  split; [assumption|]. now apply token_backref.
Qed.

Lemma backref_16_to_31_witness :
  read_backref [0x11; 0x80; 0x15; 0x12; 0x34; 0x56] 2 = Ok (1111, 21044, 6) /\
  token [0x11; 0x80; 0x15; 0x12; 0x34; 0x56] 6 30000 0x80 7 (State 2 0 []) =
    (outData' <- copy 0 1111 21044 [] ;; Ok (Next (State 6 21044 outData'))).
Proof.
  apply (backref_16_to_31 [0x11; 0x80; 0x15; 0x12; 0x34; 0x56] 6 30000 0x80 7
           (State 2 0 []) 0x15 0x12 0x34 0x56); try reflexivity. lia.
Defined.

(** C2 as worded fails: a token whose first byte is 0x05, below 16,
    takes 3 bytes, not 4, and neither its distance nor its length is
    given by the 4-byte formulas. *)
Lemma backref_below_16_not_4_bytes :
  let inData := [0x05; 0x12; 0x34; 0x56] in
  let first := 0x05 in let second := 0x12 in
  let third := 0x34 in let fourth := 0x56 in
  getitem inData 0 = Ok first /\ first < 16 /\
  exists pos copylen offset',
    read_backref inData 0 = Ok (pos, copylen, offset') /\
    offset' <> 0 + 4 /\
    pos <> Z.lor (Z.shiftl (Z.land third 0xF) 8) fourth + 1 /\
    copylen <>
      Z.lor (Z.lor (Z.shiftl second 4) (Z.shiftl (Z.land first 0xF) 12))
            (Z.shiftr third 4) + 273.
Proof.
  cbv zeta. split; [reflexivity|]. split; [lia|].
  exists 565, 98, 3. repeat split; (reflexivity || (vm_compute; congruence)).
Qed.

(** ** The overlapping copy, on the stream of the specification *)

(** C3. The stream [11 08 00 00 08 41 41 41 41 30 00] decodes to eight
    bytes 0x41.  The flag byte 0x08 is read from bit 7 down: the slots of
    bits 7, 6, 5 and 4 are literals and fill positions 0 to 3; the slot of
    bit 3 is the 2-byte back-reference [30 00], of distance 1 and length 4,
    so the distance is below the length.  Its copy runs through the
    buffers listed.  Whatever the buffer holds, round [y] of this copy
    reads position [4 - 1 + y] and stores the byte read at [4 + y]; so in
    each round after the first, the position read is the one written the
    round before, and two rounds in a row store the same byte: the byte
    round [y - 1] wrote is the byte round [y] reads and writes.  On the
    buffer of the stream that position held 0 before the token and holds
    0x41 when it is read. *)
Theorem UncompressLZ77_overlap_example :
  let stream := [0x11; 8; 0; 0; 0x08; 0x41; 0x41; 0x41; 0x41; 0x30; 0] in
  let literals := [0x41; 0x41; 0x41; 0x41; 0; 0; 0; 0] in
  UncompressLZ77 stream = Ok (replicate 8 0x41) /\
  GetUncompressedSize stream = Ok (8, 4) /\
  rev (range 8) = [7; 6; 5; 4; 3; 2; 1; 0] /\
  for_each [7; 6; 5; 4] (token stream 11 8 0x08) (State 5 0 (replicate 8 0))
    = Ok (State 9 4 literals) /\
  negb (Z.land 0x08 (Z.shiftl 1 3) =? 0) = true /\
  read_backref stream 9 = Ok (1, 4, 11) /\
  1 < 4 /\
  copy 4 1 1 literals = Ok [0x41; 0x41; 0x41; 0x41; 0x41; 0; 0; 0] /\
  copy 4 1 2 literals = Ok [0x41; 0x41; 0x41; 0x41; 0x41; 0x41; 0; 0] /\
  copy 4 1 3 literals = Ok [0x41; 0x41; 0x41; 0x41; 0x41; 0x41; 0x41; 0] /\
  copy 4 1 4 literals = Ok (replicate 8 0x41) /\
  (forall y buf v, 0 <= y < 4 -> len buf = 8 ->
     getitem buf (4 - 1 + y) = Ok v ->
     copy_byte 4 1 y buf = Ok (Next (<[Z.to_nat (4 + y) := v]> buf))) /\
  forall y, 0 < y < 4 ->
    4 - 1 + y = 4 + (y - 1) /\
    (forall buf v, len buf = 8 ->
       getitem buf (4 + (y - 1)) = Ok v ->
       copy_byte 4 1 y buf = Ok (Next (<[Z.to_nat (4 + y) := v]> buf))) /\
    (forall buf v, len buf = 8 ->
       getitem buf (4 - 1 + (y - 1)) = Ok v ->
       for_each [y - 1; y] (copy_byte 4 1) buf
       = Ok (<[Z.to_nat (4 + y) := v]>
               (<[Z.to_nat (4 + (y - 1)) := v]> buf))) /\
    getitem literals (4 - 1 + y) = Ok 0 /\
    exists mid, copy 4 1 y literals = Ok mid /\
                getitem mid (4 - 1 + y) = Ok 0x41.
Proof.
  cbv zeta.
  assert (Hround : forall y buf v, 0 <= y < 4 -> len buf = 8 ->
            getitem buf (4 - 1 + y) = Ok v ->
            copy_byte 4 1 y buf = Ok (Next (<[Z.to_nat (4 + y) := v]> buf))).
  { intros y buf v Hy Hlen Hget. unfold copy_byte. rewrite Hget. cbn [bind].
    rewrite setitem_in by lia. reflexivity. }
  repeat match goal with
         | |- _ /\ _ => split; [reflexivity || lia || exact Hround|]
         end.
  intros y Hy. split; [lia|]. split.
  { intros buf v Hlen Hget. apply Hround; [lia | assumption|].
    now replace (4 - 1 + y) with (4 + (y - 1)) by lia. }
  split.
  { intros buf v Hlen Hget. cbn [for_each].
    rewrite (Hround (y - 1) buf v) by (lia || assumption). cbn [bind].
    rewrite (Hround y _ v); [reflexivity | lia | now rewrite len_insert |].
    apply getitem_in; [lia|].
    replace (4 - 1 + y) with (4 + (y - 1)) by lia.
    apply list_lookup_insert_eq. unfold len in Hlen. lia. }
  assert (Hc : y = 1 \/ y = 2 \/ y = 3) by lia.
  destruct Hc as [->|[->| ->]];
    (split; [reflexivity|]); eexists; split; reflexivity.
Qed.

(** ** Loops *)

Section for_each_rules.
Context {S : Type} (body : Z -> S -> result (flow S)).

Lemma for_each_fuel xs s :
  (forall x s, body x s <> OutOfFuel) -> for_each xs body s <> OutOfFuel.
Proof.
  intros Hb. revert s. induction xs as [|x xs IH]; intros s; simpl.
  - discriminate.
  - specialize (Hb x s). destruct (body x s) as [[s'|s']| |]; simpl;
      [apply IH | discriminate | discriminate | congruence].
Qed.

(** A property kept by every round is kept by the loop. *)
Lemma for_each_keeps (P : S -> Prop) xs s s' :
  (forall x s r, P s -> body x s = Ok r -> P (flow_state r)) ->
  P s -> for_each xs body s = Ok s' -> P s'.
Proof.
  intros Hb. revert s. induction xs as [|x xs IH]; intros s Hs; simpl.
  - intros H; inversion H; subst; assumption.
  - destruct (body x s) as [[s1|s1]| |] eqn:E; simpl; try discriminate.
    + apply IH. apply (Hb x s (Next s1)); assumption.
    + intros H; inversion H; subst. apply (Hb x s (Break s')); assumption.
Qed.

Lemma for_each_app xs ys s :
  (forall x s s', body x s <> Ok (Break s')) ->
  for_each (xs ++ ys) body s = (s1 <- for_each xs body s ;; for_each ys body s1).
Proof.
  intros Hb. revert s. induction xs as [|x xs IH]; intros s; simpl.
  - reflexivity.
  - destruct (body x s) as [[s1|s1]| |] eqn:E; simpl; try reflexivity.
    + apply IH.
    + now apply Hb in E.
Qed.

Lemma for_visits_keeps (P : S -> Prop) xs s x t :
  (forall x s s', P s -> body x s = Ok (Next s') -> P s') ->
  P s -> for_visits body xs s x t -> P t.
Proof.
  intros Hb Hs Hv. induction Hv as [|x xs s s' y t Hx Hv IH].
  - assumption.
  - apply IH. now apply (Hb x s s').
Qed.

(** An exception raised in a round the loop gets to leaves the loop. *)
Lemma for_visits_raise xs s x t e :
  for_visits body xs s x t -> body x t = Raise e ->
  for_each xs body s = Raise e.
Proof.
  intros Hv He. induction Hv as [|x xs s s' y t Hx Hv IH]; simpl.
  - now rewrite He.
  - rewrite Hx. simpl. now apply IH.
Qed.
End for_each_rules.

(** ** The copy of a back-reference *)

Lemma copy_byte_fuel outIndex pos y out : copy_byte outIndex pos y out <> OutOfFuel.
Proof.
  unfold copy_byte. pose proof (getitem_fuel out (outIndex - pos + y)) as Hg.
  destruct (getitem out (outIndex - pos + y)) as [b| |]; simpl;
    [|discriminate|congruence].
  pose proof (setitem_fuel out (outIndex + y) b) as Hs.
  destruct (setitem out (outIndex + y) b); simpl; congruence.
Qed.

Lemma copy_byte_no_break outIndex pos y out out' :
  copy_byte outIndex pos y out <> Ok (Break out').
Proof.
  unfold copy_byte.
  destruct (getitem out (outIndex - pos + y)) as [b| |]; simpl; try discriminate.
  destruct (setitem out (outIndex + y) b); simpl; discriminate.
Qed.

Lemma copy_fuel outIndex pos copylen out :
  copy outIndex pos copylen out <> OutOfFuel.
Proof. apply for_each_fuel. intros. apply copy_byte_fuel. Qed.

(** A copy that returns has written inside the buffer, and only at the
    positions [outIndex + a], ..., [outIndex + a + k - 1]. *)
Lemma copy_rounds_Ok outIndex pos (k : nat) : forall a out out',
  0 <= outIndex + a ->
  for_each (seqZ a (Z.of_nat k)) (copy_byte outIndex pos) out = Ok out' ->
  len out' = len out /\
  ((0 < k)%nat -> outIndex + a + Z.of_nat k <= len out) /\
  forall i : nat,
    Z.of_nat i < outIndex + a \/ outIndex + a + Z.of_nat k <= Z.of_nat i ->
    out' !! i = out !! i.
Proof.
  induction k as [|k IH]; intros a out out' Ha.
  - simpl. intros H; inversion H; subst. repeat split; auto. lia.
  - rewrite seqZ_cons by lia. simpl for_each.
    replace (Z.pred (Z.of_nat (S k))) with (Z.of_nat k) by lia.
    unfold copy_byte at 1.
    destruct (getitem out (outIndex - pos + a)) as [b| |]; simpl;
      try discriminate.
    destruct (setitem out (outIndex + a) b) as [out1| |] eqn:Es; simpl;
      try discriminate.
    apply setitem_Ok_nonneg in Es as [Hlt ->]; [|assumption].
    intros H. apply IH in H as (Hlen & Hend & Hsame); [|lia].
    rewrite len_insert in Hlen, Hend. split; [assumption|]. split.
    + intros _. destruct k; [lia|]. specialize (Hend ltac:(lia)). lia.
    + intros i Hi. rewrite Hsame by lia.
      apply list_lookup_insert_ne. lia.
Qed.

Lemma copy_Ok outIndex pos copylen out out' :
  0 <= outIndex -> 1 <= copylen ->
  copy outIndex pos copylen out = Ok out' ->
  len out' = len out /\
  outIndex + copylen <= len out /\
  forall i : nat,
    Z.of_nat i < outIndex \/ outIndex + copylen <= Z.of_nat i ->
    out' !! i = out !! i.
Proof.
  intros Ho Hc. unfold copy, range.
  rewrite <- (Z2Nat.id copylen) at 1 by lia. intros H.
  apply copy_rounds_Ok in H as (Hlen & Hend & Hsame); [|lia].
  split; [assumption|]. split; [lia|].
  intros i Hi. apply Hsame. lia.
Qed.

Lemma getitem_total (l : list Z) i :
  - len l <= i < len l -> exists b, getitem l i = Ok b.
Proof.
  intros Hi. unfold getitem.
  destruct (Z.lt_ge_cases i 0) as [Hneg|Hpos].
  - rewrite py_index_wrap by lia. simpl.
    destruct (lookup_lt_is_Some_2 l (Z.to_nat (len l + i))) as [b Hb];
      [unfold len in *; lia|].
    rewrite Hb. eauto.
  - rewrite py_index_in by lia. simpl.
    destruct (lookup_lt_is_Some_2 l (Z.to_nat i)) as [b Hb];
      [unfold len in *; lia|].
    rewrite Hb. eauto.
Qed.

(** A copy whose reads and writes stay in range returns. *)
Lemma copy_rounds_total outIndex pos (k : nat) : forall a out,
  0 <= outIndex + a -> 1 <= pos ->
  outIndex + a + Z.of_nat k <= len out ->
  - len out <= outIndex - pos + a ->
  exists out',
    for_each (seqZ a (Z.of_nat k)) (copy_byte outIndex pos) out = Ok out'.
Proof.
  induction k as [|k IH]; intros a out Ha Hp Hend Hread.
  - simpl. eauto.
  - rewrite seqZ_cons by lia. simpl for_each.
    replace (Z.pred (Z.of_nat (S k))) with (Z.of_nat k) by lia.
    unfold copy_byte at 1.
    destruct (getitem_total out (outIndex - pos + a)) as [b Hb]; [lia|].
    rewrite Hb. simpl. rewrite setitem_in by lia. simpl.
    apply IH; rewrite ?len_insert; lia.
Qed.

(** ** Reading a back-reference *)

Lemma read_backref_fuel inData off : read_backref inData off <> OutOfFuel.
Proof.
  unfold read_backref.
  pose proof (getitem_fuel inData off).
  destruct (getitem inData off) as [first| |]; simpl; try congruence.
  pose proof (getitem_fuel inData (off + 1)).
  destruct (getitem inData (off + 1)) as [second| |]; simpl; try congruence.
  destruct (first <? 32); [|discriminate].
  pose proof (getitem_fuel inData (off + 1 + 1)).
  destruct (getitem inData (off + 1 + 1)) as [third| |]; simpl; try congruence.
  destruct (16 <=? first); [|discriminate].
  pose proof (getitem_fuel inData (off + 1 + 1 + 1)).
  destruct (getitem inData (off + 1 + 1 + 1)) as [fourth| |]; simpl; congruence.
Qed.

(** On bytes, a token that is read has a distance and a length of at
    least 1, and ends inside the input. *)
Lemma read_backref_bounds inData off pos copylen off' :
  is_bytes inData = true -> 0 <= off ->
  read_backref inData off = Ok (pos, copylen, off') ->
  1 <= pos /\ 1 <= copylen /\ off < off' <= len inData.
Proof.
  intros Hb Ho. unfold read_backref.
  destruct (getitem inData off) as [first| |] eqn:E1; simpl; try discriminate.
  destruct (getitem inData (off + 1)) as [second| |] eqn:E2; simpl;
    try discriminate.
  pose proof (getitem_is_bytes _ _ _ Hb E1) as B1.
  pose proof (getitem_is_bytes _ _ _ Hb E2) as B2.
  apply getitem_Ok_nonneg in E2 as [L2 _]; [|lia].
  destruct (first <? 32) eqn:E32.
  - destruct (getitem inData (off + 1 + 1)) as [third| |] eqn:E3; simpl;
      try discriminate.
    pose proof (getitem_is_bytes _ _ _ Hb E3) as B3.
    apply getitem_Ok_nonneg in E3 as [L3 _]; [|lia].
    destruct (16 <=? first) eqn:E16.
    + destruct (getitem inData (off + 1 + 1 + 1)) as [fourth| |] eqn:E4; simpl;
        try discriminate.
      pose proof (getitem_is_bytes _ _ _ Hb E4) as B4.
      apply getitem_Ok_nonneg in E4 as [L4 _]; [|lia].
      intros H; inversion H; subst.
      assert (0 <= Z.lor (Z.shiftl (Z.land third 15) 8) fourth).
      { apply lor_nonneg; [apply shiftl_nonneg, land_15_nonneg | lia]. }
      assert (0 <= Z.lor (Z.lor (Z.shiftl second 4)
                                (Z.shiftl (Z.land first 15) 12))
                         (Z.shiftr third 4)).
      { apply lor_nonneg; [apply lor_nonneg|]; [apply shiftl_nonneg; lia
          | apply shiftl_nonneg, land_15_nonneg | apply shiftr_nonneg; lia]. }
      lia.
    + intros H; inversion H; subst.
      assert (0 <= Z.lor (Z.shiftl (Z.land second 15) 8) third).
      { apply lor_nonneg; [apply shiftl_nonneg, land_15_nonneg | lia]. }
      assert (0 <= Z.lor (Z.shiftl (Z.land first 15) 4) (Z.shiftr second 4)).
      { apply lor_nonneg; [apply shiftl_nonneg, land_15_nonneg
          | apply shiftr_nonneg; lia]. }
      lia.
  - intros H; inversion H; subst.
    assert (0 <= Z.lor (Z.shiftl (Z.land first 15) 8) second).
    { apply lor_nonneg; [apply shiftl_nonneg, land_15_nonneg | lia]. }
    assert (0 <= Z.shiftr first 4) by (apply shiftr_nonneg; lia).
    lia.
Qed.

(** A token that is read is read alike in a longer input. *)
Lemma read_backref_app inData more off r :
  0 <= off ->
  read_backref inData off = Ok r -> read_backref (inData ++ more) off = Ok r.
Proof.
  intros Ho. unfold read_backref.
  destruct (getitem inData off) as [first| |] eqn:E1; simpl; try discriminate.
  rewrite (getitem_app _ more _ _ Ho E1). simpl.
  destruct (getitem inData (off + 1)) as [second| |] eqn:E2; simpl;
    try discriminate.
  rewrite (getitem_app inData more (off + 1) second ltac:(lia) E2). simpl.
  destruct (first <? 32); [|auto].
  destruct (getitem inData (off + 1 + 1)) as [third| |] eqn:E3; simpl;
    try discriminate.
  rewrite (getitem_app inData more (off + 1 + 1) third ltac:(lia) E3). simpl.
  destruct (16 <=? first); [|auto].
  destruct (getitem inData (off + 1 + 1 + 1)) as [fourth| |] eqn:E4; simpl;
    try discriminate.
  rewrite (getitem_app inData more (off + 1 + 1 + 1) fourth ltac:(lia) E4). simpl. auto.
Qed.

(** ** One token slot *)

Lemma extends_refl st : extends st st.
Proof. split; [lia | auto]. Qed.

Lemma extends_trans st1 st2 st3 :
  extends st1 st2 -> extends st2 st3 -> extends st1 st3.
Proof.
  intros [H1 H1'] [H2 H2']. split; [lia|].
  intros i Hi. rewrite H2' by lia. now apply H1'.
Qed.

Lemma token_fuel inData inLength outLength flags x st :
  token inData inLength outLength flags x st <> OutOfFuel.
Proof.
  unfold token.
  destruct ((outLength <=? outIndex st) || (inLength <=? offset st));
    [discriminate|].
  destruct (negb (Z.land flags (Z.shiftl 1 x) =? 0)).
  - pose proof (read_backref_fuel inData (offset st)).
    destruct (read_backref inData (offset st)) as [[[pos copylen] off']| |];
      simpl; try congruence.
    pose proof (copy_fuel (outIndex st) pos copylen (outData st)).
    destruct (copy (outIndex st) pos copylen (outData st)); simpl; congruence.
  - pose proof (getitem_fuel inData (offset st)).
    destruct (getitem inData (offset st)) as [b| |]; simpl; try congruence.
    pose proof (setitem_fuel (outData st) (outIndex st) b).
    destruct (setitem (outData st) (outIndex st) b); simpl; congruence.
Qed.

(** A token slot keeps [inv], leaves what was written in place and
    never moves the input cursor back; a slot that decodes a token moves
    it forward. *)
Lemma token_step inData outLength flags x st r :
  is_bytes inData = true ->
  inv (len inData) outLength st ->
  token inData (len inData) outLength flags x st = Ok r ->
  inv (len inData) outLength (flow_state r) /\
  extends st (flow_state r) /\
  match r with
  | Next st' => offset st < offset st'
  | Break st' => st' = st
  end.
Proof.
  intros Hb (Hlen & Hout & Hoff & Hzero). unfold token.
  destruct ((outLength <=? outIndex st) || (len inData <=? offset st)) eqn:Eg.
  { intros H; inversion H; subst; simpl.
    repeat split; auto; try lia. }
  apply orb_false_elim in Eg as [Eg1 Eg2].
  destruct (negb (Z.land flags (Z.shiftl 1 x) =? 0)).
  - destruct (read_backref inData (offset st)) as [[[pos copylen] off']| |]
      eqn:Er; simpl; try discriminate.
    apply read_backref_bounds in Er as (Hpos & Hcl & Ho'); [|assumption|lia].
    destruct (copy (outIndex st) pos copylen (outData st)) as [out'| |] eqn:Ec;
      simpl; try discriminate.
    apply copy_Ok in Ec as (Hlen' & Hend & Hsame); [|lia|lia].
    intros H; inversion H; subst; simpl.
    repeat split; simpl; try lia.
    + intros i Hi. rewrite Hsame by lia. apply Hzero. lia.
    + intros i Hi. apply Hsame. lia.
  - destruct (getitem inData (offset st)) as [b| |] eqn:Eb; simpl;
      try discriminate.
    destruct (setitem (outData st) (outIndex st) b) as [out'| |] eqn:Es;
      simpl; try discriminate.
    apply setitem_Ok_nonneg in Es as [Hlt ->]; [|lia].
    intros H; inversion H; subst; simpl.
    repeat split; simpl; rewrite ?len_insert; try lia.
    + intros i Hi. rewrite list_lookup_insert_ne by lia. apply Hzero. lia.
    + intros i Hi. apply list_lookup_insert_ne. lia.
Qed.

(** ** The two loops *)

Section decoding.
Variables (inData : list Z) (outLength : Z).
Hypothesis inData_bytes : is_bytes inData = true.

Let inLength := len inData.

Lemma bits_loop_step flags xs st st' :
  inv inLength outLength st ->
  for_each xs (token inData inLength outLength flags) st = Ok st' ->
  inv inLength outLength st' /\ extends st st' /\ offset st <= offset st'.
Proof.
  intros Hinv H.
  apply (for_each_keeps _
           (fun s => inv inLength outLength s /\ extends st s /\
                     offset st <= offset s) _ _ _) in H; [assumption| |].
  - intros x s r (Hs & He & Ho) Hr.
    apply token_step in Hr as (Hs' & He' & Hr); [|assumption|assumption].
    split; [assumption|]. split; [now apply (extends_trans _ s)|].
    destruct r; simpl in *; subst; lia.
  - split; [assumption|]. split; [apply extends_refl | lia].
Qed.

Lemma inv_after_flag st :
  inv inLength outLength st ->
  (outIndex st <? outLength) && (offset st <? inLength) = true ->
  inv inLength outLength (State (offset st + 1) (outIndex st) (outData st)).
Proof.
  intros (Hlen & Hout & Hoff & Hzero) Hc.
  apply andb_true_iff in Hc as [_ Hc].
  repeat split; simpl; auto; lia.
Qed.

Lemma while_loop_step fuel : forall st st',
  inv inLength outLength st ->
  while_loop fuel inData inLength outLength st = Ok st' ->
  inv inLength outLength st' /\ extends st st' /\ offset st <= offset st'.
Proof.
  induction fuel as [|fuel IH]; intros st st' Hinv; cbn [while_loop];
    destruct ((outIndex st <? outLength) && (offset st <? inLength)) eqn:Ec;
    try discriminate;
    try (intros H; inversion H; subst;
         split; [assumption|]; split; [apply extends_refl | lia]).
  destruct (getitem inData (offset st)) as [flags| |]; cbn [bind];
    try discriminate.
  case_for_each st1 Ef; cbn [bind]; try discriminate.
  apply bits_loop_step in Ef as (Hinv1 & He1 & Ho1);
    [|now apply inv_after_flag].
  intros H. apply IH in H as (Hinv' & He' & Ho'); [|assumption].
  split; [assumption|]. simpl in Ho1. split; [|lia].
  apply (extends_trans _ st1); [|assumption].
  destruct He1 as [He1 He1']. split; assumption.
Qed.

Lemma while_visits_inv fuel st flags x t :
  inv inLength outLength st ->
  while_visits inData inLength outLength fuel st flags x t ->
  inv inLength outLength t /\ extends st t.
Proof.
  intros Hinv Hv.
  induction Hv as [fuel st flags x t Hc Hf Hv
                  |fuel st flags st' flags' x t Hc Hf He Hv IH].
  - apply (for_visits_keeps _
             (fun s => inv inLength outLength s /\ extends st s) _ _ _ _)
      in Hv; [assumption| |].
    + intros y s s' [Hs He] Hy.
      apply token_step in Hy as (Hs' & He' & _); [|assumption|assumption].
      split; [assumption | now apply (extends_trans _ s)].
    + split; [now apply inv_after_flag|]. split; simpl; [lia | auto].
  - apply bits_loop_step in He as (Hinv1 & [He1 He1'] & _);
      [|now apply inv_after_flag].
    destruct (IH Hinv1) as [Ht Het]. split; [assumption|].
    apply (extends_trans _ st'); [split|]; assumption.
Qed.
End decoding.

(** An exception raised in a token slot the [while] loop gets to leaves
    the loop. *)
Lemma while_visits_raise inData inLength outLength fuel st flags x t e :
  while_visits inData inLength outLength fuel st flags x t ->
  token inData inLength outLength flags x t = Raise e ->
  while_loop fuel inData inLength outLength st = Raise e.
Proof.
  intros Hv He.
  induction Hv as [fuel st flags x t Hc Hf Hv
                  |fuel st flags st' flags' x t Hc Hf Hs Hv IH];
    cbn [while_loop].
  - rewrite Hc, Hf. cbn [bind].
    now rewrite (for_visits_raise _ _ _ _ _ _ Hv He).
  - rewrite Hc, Hf. cbn [bind]. rewrite Hs. cbn [bind]. now apply IH.
Qed.

(** ** Termination *)

Lemma read_backref_offset inData off pos copylen off' :
  read_backref inData off = Ok (pos, copylen, off') -> off < off'.
Proof.
  unfold read_backref.
  destruct (getitem inData off) as [first| |]; simpl; try discriminate.
  destruct (getitem inData (off + 1)) as [second| |]; simpl; try discriminate.
  destruct (first <? 32).
  - destruct (getitem inData (off + 1 + 1)) as [third| |]; simpl;
      try discriminate.
    destruct (16 <=? first).
    + destruct (getitem inData (off + 1 + 1 + 1)) as [fourth| |]; simpl;
        try discriminate.
      intros H; inversion H; lia.
    + intros H; inversion H; lia.
  - intros H; inversion H; lia.
Qed.

Lemma token_offset inData inLength outLength flags x st r :
  token inData inLength outLength flags x st = Ok r ->
  offset st <= offset (flow_state r).
Proof.
  unfold token.
  destruct ((outLength <=? outIndex st) || (inLength <=? offset st)).
  { intros H; inversion H; simpl; lia. }
  destruct (negb (Z.land flags (Z.shiftl 1 x) =? 0)).
  - destruct (read_backref inData (offset st)) as [[[pos copylen] off']| |]
      eqn:Er; simpl; try discriminate.
    apply read_backref_offset in Er.
    destruct (copy _ _ _ _); simpl; try discriminate.
    intros H; inversion H; simpl; lia.
  - destruct (getitem inData (offset st)); simpl; try discriminate.
    destruct (setitem _ _ _); simpl; try discriminate.
    intros H; inversion H; simpl; lia.
Qed.

(** Every round of the [while] loop reads a flag byte, so as many units
    of fuel as there are bytes ahead are enough. *)
Lemma while_loop_fuel inData inLength outLength fuel : forall st,
  inLength - offset st <= Z.of_nat fuel ->
  while_loop fuel inData inLength outLength st <> OutOfFuel.
Proof.
  induction fuel as [|fuel IH]; intros st Hf; cbn [while_loop];
    destruct ((outIndex st <? outLength) && (offset st <? inLength)) eqn:Ec;
    try discriminate.
  - apply andb_true_iff in Ec as [_ Ec]. lia.
  - pose proof (getitem_fuel inData (offset st)) as Hg.
    destruct (getitem inData (offset st)) as [flags| |]; cbn [bind];
      try congruence.
    case_for_each st1 Ef; cbn [bind]; try discriminate.
    + apply IH.
      apply (for_each_keeps _ (fun s => offset st + 1 <= offset s)) in Ef;
        [lia| |simpl; lia].
      intros y s r Hs Hr. apply token_offset in Hr. lia.
    + apply for_each_fuel in Ef; [contradiction|].
      intros. apply token_fuel.
Qed.

Lemma GetUncompressedSize_fuel inData : GetUncompressedSize inData <> OutOfFuel.
Proof.
  unfold GetUncompressedSize.
  pose proof (getitem_fuel inData 1). pose proof (getitem_fuel inData 2).
  pose proof (getitem_fuel inData 3). pose proof (getitem_fuel inData 4).
  pose proof (getitem_fuel inData 5). pose proof (getitem_fuel inData 6).
  pose proof (getitem_fuel inData 7).
  destruct (getitem inData 1); simpl; try congruence.
  destruct (getitem inData 2); simpl; try congruence.
  destruct (getitem inData 3); simpl; try congruence.
  destruct (_ =? 0); [|discriminate].
  destruct (getitem inData 4); simpl; try congruence.
  destruct (getitem inData 5); simpl; try congruence.
  destruct (getitem inData 6); simpl; try congruence.
  destruct (getitem inData 7); simpl; congruence.
Qed.

(** [UncompressLZ77] terminates on every input: the fuel it gives the
    [while] loop never runs out. *)
Theorem UncompressLZ77_terminates inData : UncompressLZ77 inData <> OutOfFuel.
Proof.
  unfold UncompressLZ77.
  pose proof (getitem_fuel inData 0).
  destruct (getitem inData 0) as [marker| |]; simpl; try congruence.
  destruct (negb (marker =? 17)); [discriminate|].
  unfold decode.
  pose proof (GetUncompressedSize_fuel inData).
  destruct (GetUncompressedSize inData) as [[outLength start]| |] eqn:Eh;
    simpl; try congruence.
  apply GetUncompressedSize_Ok_len in Eh as [Hs _].
  unfold bytearray. destruct (outLength <? 0); simpl; [discriminate|].
  pose proof (while_loop_fuel inData (len inData) outLength (length inData)
                (State start 0 (replicate (Z.to_nat outLength) 0))) as Hw.
  destruct (while_loop _ _ _ _ _); simpl; try discriminate.
  exfalso. apply Hw; [unfold len; simpl; lia | reflexivity].
Qed.

(** ** Back-references that start before the buffer *)

Lemma bytearray_Ok n buf :
  bytearray n = Ok buf -> 0 <= n /\ buf = replicate (Z.to_nat n) 0.
Proof.
  unfold bytearray. destruct (n <? 0) eqn:E; [discriminate|].
  intros H; inversion H. split; [lia | reflexivity].
Qed.

Lemma inv_start inData outLength start buf :
  GetUncompressedSize inData = Ok (outLength, start) ->
  bytearray outLength = Ok buf ->
  inv (len inData) outLength (State start 0 buf).
Proof.
  intros Hh Hb. apply GetUncompressedSize_Ok_len in Hh as [Hs Hl].
  apply bytearray_Ok in Hb as [Hn ->].
  repeat split; simpl; try lia.
  - unfold len. rewrite length_replicate. lia.
  - intros i Hi. apply lookup_replicate_2. lia.
Qed.

Lemma reaches_inv inData outLength flags x t :
  is_bytes inData = true ->
  reaches inData outLength flags x t ->
  inv (len inData) outLength t.
Proof.
  intros Hb (start & buf & _ & Hh & Hbuf & Hv).
  apply (while_visits_inv inData outLength Hb) in Hv as [Ht _];
    [assumption|]. now apply (inv_start inData outLength start buf).
Qed.

(** An exception raised in a token slot [UncompressLZ77] gets to is
    raised by [UncompressLZ77]. *)
Lemma reaches_raise inData outLength flags x t e :
  reaches inData outLength flags x t ->
  token inData (len inData) outLength flags x t = Raise e ->
  UncompressLZ77 inData = Raise e.
Proof.
  intros (start & buf & Hm & Hh & Hbuf & Hv) He.
  unfold UncompressLZ77, decode. rewrite Hm. cbn [bind].
  change (negb (17 =? 17)) with false. cbv iota.
  rewrite Hh. cbn [bind]. rewrite Hbuf. cbn [bind].
  now rewrite (while_visits_raise _ _ _ _ _ _ _ _ _ Hv He).
Qed.

(** C5, as the code has it. When decoding gets to a back-reference
    whose distance exceeds [outIndex + outLength], so that the first
    index read, [outIndex - pos], is below [-outLength], [UncompressLZ77]
    raises [IndexError] and returns nothing. *)
Theorem backref_far_before_buffer_raises inData outLength flags x t
    pos copylen offset' :
  is_bytes inData = true ->
  backref_at inData outLength flags x t pos copylen offset' ->
  outIndex t + outLength < pos ->
  UncompressLZ77 inData = Raise IndexError.
Proof.
  intros Hb (Hreach & Hg & Hbit & Hr) Hfar.
  pose proof (reaches_inv _ _ _ _ _ Hb Hreach) as (Hlen & Hout & Hoff & _).
  apply (reaches_raise _ _ _ _ _ _ Hreach).
  rewrite (token_backref _ _ _ _ _ _ _ _ _ Hg Hbit Hr).
  apply read_backref_bounds in Hr as (Hpos & Hcl & _); [|assumption|lia].
  unfold copy, range. rewrite seqZ_cons by lia. cbn [for_each].
  unfold copy_byte at 1. rewrite getitem_out by lia. reflexivity.
Qed.

Lemma backref_far_before_buffer_raises_witness :
  UncompressLZ77 [0x11; 4; 0; 0; 0x80; 0x30; 0x04] = Raise IndexError.
Proof.
  apply (backref_far_before_buffer_raises
           [0x11; 4; 0; 0; 0x80; 0x30; 0x04] 4 0x80 7
           (State 5 0 [0; 0; 0; 0]) 5 4 7).
  - reflexivity.
  - split; [|repeat split; reflexivity].
    exists 4, [0; 0; 0; 0]. repeat split; try reflexivity.
    apply while_visits_here; [reflexivity | reflexivity |].
    apply for_visits_here.
  - simpl. lia.
Defined.

(** C5 as worded fails: the stream [11 04 00 00 80 30 00] starts with a
    back-reference of distance 1 while nothing is written yet, and
    [UncompressLZ77] returns four zero bytes. *)
Lemma backref_before_buffer_returns :
  let stream := [0x11; 4; 0; 0; 0x80; 0x30; 0] in
  let t := State 5 0 [0; 0; 0; 0] in
  backref_at stream 4 0x80 7 t 1 4 7 /\
  outIndex t < 1 /\
  UncompressLZ77 stream = Ok [0; 0; 0; 0].
Proof.
  cbv zeta. split; [|split; [simpl; lia | reflexivity]].
  split; [|repeat split; reflexivity].
  exists 4, [0; 0; 0; 0]. repeat split; try reflexivity.
  apply while_visits_here; [reflexivity | reflexivity |].
  apply for_visits_here.
Qed.

(** The rounds of a copy up to round [y], round [y], and the rest. *)
Lemma copy_split outIndex pos copylen y out :
  0 <= y < copylen ->
  copy outIndex pos copylen out =
    (mid <- copy outIndex pos y out ;;
     r <- copy_byte outIndex pos y mid ;;
     for_each (seqZ (y + 1) (copylen - y - 1)) (copy_byte outIndex pos)
       (flow_state r)).
Proof.
  intros Hy. unfold copy, range.
  replace copylen with (y + (copylen - y)) at 1 by lia.
  rewrite seqZ_app by lia.
  rewrite for_each_app by (intros; apply copy_byte_no_break).
  replace (0 + y) with y by lia.
  rewrite (seqZ_cons y) by lia. cbn [for_each].
  replace (Z.succ y) with (y + 1) by lia.
  replace (Z.pred (copylen - y)) with (copylen - y - 1) by lia.
  destruct (for_each (seqZ 0 y) (copy_byte outIndex pos) out) as [mid| |];
    cbn [bind]; try reflexivity.
  pose proof (copy_byte_no_break outIndex pos y mid) as Hnb.
  destruct (copy_byte outIndex pos y mid) as [[mid'|mid']| |]; cbn [bind];
    try reflexivity.
  now specialize (Hnb mid').
Qed.

(** C9, as the code has it. When decoding gets to a back-reference
    whose distance exceeds [outIndex], every index read is at least
    [-outLength] and the copy ends inside the buffer
    ([outIndex + copylen <= outLength]), the token slot raises nothing: it
    returns with the cursor after the token and [outIndex] moved by
    [copylen].  In each round [y] whose read index
    [outIndex - pos + y] is negative, the byte read is the one at position
    [outLength + (outIndex - pos + y)] of the buffer of that round, and it
    is the byte found at [outIndex + y] after the copy.  When moreover
    [pos <= outLength], that position is at or after the one written in
    the round, in the part still holding zeros, and the byte is 0. *)
Theorem backref_before_buffer_wraps inData outLength flags x t
    pos copylen offset' :
  is_bytes inData = true ->
  backref_at inData outLength flags x t pos copylen offset' ->
  outIndex t < pos ->
  (forall y, 0 <= y < copylen -> - outLength <= outIndex t - pos + y) ->
  outIndex t + copylen <= outLength ->
  exists out',
    copy (outIndex t) pos copylen (outData t) = Ok out' /\
    token inData (len inData) outLength flags x t
      = Ok (Next (State offset' (outIndex t + copylen) out')) /\
    forall y, 0 <= y < copylen -> outIndex t - pos + y < 0 ->
      exists mid b,
        copy (outIndex t) pos y (outData t) = Ok mid /\
        getitem mid (outIndex t - pos + y) = Ok b /\
        getitem mid (outLength + (outIndex t - pos + y)) = Ok b /\
        getitem out' (outIndex t + y) = Ok b /\
        (pos <= outLength ->
         outIndex t + y <= outLength + (outIndex t - pos + y) /\ b = 0).
Proof.
  intros Hb (Hreach & Hg & Hbit & Hr) Hbefore Hreads Hend.
  pose proof (reaches_inv _ _ _ _ _ Hb Hreach) as (Hlen & Hout & Hoff & Hzero).
  pose proof (read_backref_bounds _ _ _ _ _ Hb (proj1 Hoff) Hr)
    as (Hpos & Hcl & _).
  destruct (copy_rounds_total (outIndex t) pos (Z.to_nat copylen) 0 (outData t))
    as [out' Hcopy]; try lia.
  { specialize (Hreads 0). lia. }
  rewrite Z2Nat.id in Hcopy by lia. fold (range copylen) in Hcopy.
  fold (copy (outIndex t) pos copylen (outData t)) in Hcopy.
  exists out'. split; [assumption|]. split.
  { rewrite (token_backref _ _ _ _ _ _ _ _ _ Hg Hbit Hr). now rewrite Hcopy. }
  intros y Hy Hneg.
  rewrite (copy_split _ _ _ y) in Hcopy by assumption.
  destruct (copy (outIndex t) pos y (outData t)) as [mid| |] eqn:Emid;
    cbn [bind] in Hcopy; try discriminate.
  assert (Hmid : len mid = len (outData t) /\
                 forall i : nat, outIndex t + y <= Z.of_nat i ->
                   mid !! i = outData t !! i).
  { unfold copy, range in Emid. rewrite <- (Z2Nat.id y) in Emid by lia.
    apply copy_rounds_Ok in Emid as (Hl & _ & Hs); [|lia].
    split; [assumption|]. intros i Hi. apply Hs. lia. }
  destruct Hmid as [Hmlen Hmsame].
  unfold copy_byte at 1 in Hcopy.
  destruct (getitem mid (outIndex t - pos + y)) as [b| |] eqn:Eb;
    cbn [bind] in Hcopy; try discriminate.
  rewrite setitem_in in Hcopy by lia. cbn [bind flow_state] in Hcopy.
  rewrite <- (Z2Nat.id (copylen - y - 1)) in Hcopy by lia.
  apply copy_rounds_Ok in Hcopy as (_ & _ & Hsame); [|lia].
  specialize (Hreads y Hy).
  exists mid, b. split; [reflexivity || assumption|]. split; [assumption|].
  assert (Hwrap : getitem mid (outLength + (outIndex t - pos + y)) = Ok b).
  { rewrite <- Eb. rewrite <- Hlen, <- Hmlen. symmetry.
    apply getitem_wrap. lia. }
  split; [assumption|]. split.
  - apply getitem_in; [lia|]. rewrite Hsame by lia.
    rewrite Z2Nat.inj_add by lia.
    replace (Z.to_nat (outIndex t) + Z.to_nat y)%nat
      with (Z.to_nat (outIndex t + y)) by lia.
    apply list_lookup_insert_eq. unfold len in *. lia.
  - intros Hle. split; [lia|].
    apply getitem_Ok_nonneg in Hwrap as [_ Hl]; [|lia].
    rewrite Hmsame in Hl by lia. rewrite Hzero in Hl by lia.
    now inversion Hl.
Qed.

Lemma backref_before_buffer_wraps_witness :
  let stream := [0x11; 4; 0; 0; 0x80; 0x30; 0] in
  let t := State 5 0 [0; 0; 0; 0] in
  exists out',
    copy (outIndex t) 1 4 (outData t) = Ok out' /\
    token stream (len stream) 4 0x80 7 t
      = Ok (Next (State 7 (outIndex t + 4) out')) /\
    forall y, 0 <= y < 4 -> outIndex t - 1 + y < 0 ->
      exists mid b,
        copy (outIndex t) 1 y (outData t) = Ok mid /\
        getitem mid (outIndex t - 1 + y) = Ok b /\
        getitem mid (4 + (outIndex t - 1 + y)) = Ok b /\
        getitem out' (outIndex t + y) = Ok b /\
        (1 <= 4 -> outIndex t + y <= 4 + (outIndex t - 1 + y) /\ b = 0).
Proof.
  cbv zeta.
  apply (backref_before_buffer_wraps [0x11; 4; 0; 0; 0x80; 0x30; 0]
           4 0x80 7 (State 5 0 [0; 0; 0; 0]) 1 4 7).
  - reflexivity.
  - split; [|repeat split; reflexivity].
    exists 4, [0; 0; 0; 0]. repeat split; try reflexivity.
    apply while_visits_here; [reflexivity | reflexivity |].
    apply for_visits_here.
  - simpl. lia.
  - simpl. intros y Hy. lia.
  - simpl. lia.
Defined.

(** C9 as worded fails twice.  In [11 02 00 00 80 30 00] the
    back-reference has distance 1 with nothing written, and every index
    it reads is at least [-outLength = -2]; but its length 4 does not fit
    the 2-byte buffer, the third write raises [IndexError] and no result
    is returned.  In [11 05 00 00 20 01 02 20 05] the back-reference has
    distance 6 with two bytes written, and every index it reads is at
    least [-outLength = -5]; its first read, at index -4, wraps to
    position 1, which is below [outIndex] and holds the literal 2, not a
    zero of the unwritten part. *)
Lemma backref_before_buffer_not_always_silent_zero :
  (let stream := [0x11; 2; 0; 0; 0x80; 0x30; 0] in
   let t := State 5 0 [0; 0] in
   backref_at stream 2 0x80 7 t 1 4 7 /\
   outIndex t < 1 /\
   (forall y, 0 <= y < 4 -> - 2 <= outIndex t - 1 + y) /\
   token stream (len stream) 2 0x80 7 t = Raise IndexError /\
   UncompressLZ77 stream = Raise IndexError) /\
  (let stream := [0x11; 5; 0; 0; 0x20; 1; 2; 0x20; 5] in
   let t := State 7 2 [1; 2; 0; 0; 0] in
   backref_at stream 5 0x20 5 t 6 3 9 /\
   outIndex t < 6 /\
   (forall y, 0 <= y < 3 -> - 5 <= outIndex t - 6 + y) /\
   5 + (outIndex t - 6 + 0) = 1 /\ 1 < outIndex t /\
   getitem (outData t) (outIndex t - 6 + 0) = Ok 2 /\
   UncompressLZ77 stream = Ok [1; 2; 2; 2; 2]).
Proof.
  cbv zeta. split.
  - split; [|split; [simpl; lia|split; [simpl; intros; lia|]]].
    + split; [|repeat split; reflexivity].
      exists 4, [0; 0]. repeat split; try reflexivity.
      apply while_visits_here; [reflexivity | reflexivity |].
      apply for_visits_here.
    + split; reflexivity.
  - split; [|split; [simpl; lia|split; [simpl; intros; lia|]]].
    + split; [|repeat split; reflexivity].
      exists 4, [0; 0; 0; 0; 0]. repeat split; try reflexivity.
      apply while_visits_here; [reflexivity | reflexivity |].
      eapply for_visits_later; [reflexivity|].
      eapply for_visits_later; [reflexivity|].
      apply for_visits_here.
    + repeat split; reflexivity || (simpl; lia).
Qed.

(** ** Truncated streams *)

Lemma is_bytes_app_l (s more : list Z) :
  is_bytes (s ++ more) = true -> is_bytes s = true.
Proof.
  unfold is_bytes. rewrite forallb_app. intros H.
  now apply andb_true_iff in H as [H _].
Qed.

Lemma inv_app s more outLength st :
  inv (len s) outLength st -> inv (len (s ++ more)) outLength st.
Proof.
  intros (Hlen & Hout & Hoff & Hzero). rewrite len_app.
  repeat split; auto; try lia. unfold len in *. lia.
Qed.

Lemma GetUncompressedSize_app s more r :
  GetUncompressedSize s = Ok r -> GetUncompressedSize (s ++ more) = Ok r.
Proof.
  unfold GetUncompressedSize.
  destruct (getitem s 1) as [b1| |] eqn:E1; cbn [bind]; try discriminate.
  rewrite (getitem_app s more 1 b1 ltac:(lia) E1). cbn [bind].
  destruct (getitem s 2) as [b2| |] eqn:E2; cbn [bind]; try discriminate.
  rewrite (getitem_app s more 2 b2 ltac:(lia) E2). cbn [bind].
  destruct (getitem s 3) as [b3| |] eqn:E3; cbn [bind]; try discriminate.
  rewrite (getitem_app s more 3 b3 ltac:(lia) E3). cbn [bind].
  destruct (_ =? 0); [|auto].
  destruct (getitem s 4) as [b4| |] eqn:E4; cbn [bind]; try discriminate.
  rewrite (getitem_app s more 4 b4 ltac:(lia) E4). cbn [bind].
  destruct (getitem s 5) as [b5| |] eqn:E5; cbn [bind]; try discriminate.
  rewrite (getitem_app s more 5 b5 ltac:(lia) E5). cbn [bind].
  destruct (getitem s 6) as [b6| |] eqn:E6; cbn [bind]; try discriminate.
  rewrite (getitem_app s more 6 b6 ltac:(lia) E6). cbn [bind].
  destruct (getitem s 7) as [b7| |] eqn:E7; cbn [bind]; try discriminate.
  rewrite (getitem_app s more 7 b7 ltac:(lia) E7). cbn [bind]. auto.
Qed.

(** A token decoded from a stream is decoded alike from a longer one. *)
Lemma token_app s more outLength flags x st st' :
  0 <= offset st ->
  token s (len s) outLength flags x st = Ok (Next st') ->
  token (s ++ more) (len (s ++ more)) outLength flags x st = Ok (Next st').
Proof.
  intros Ho. unfold token.
  destruct ((outLength <=? outIndex st) || (len s <=? offset st)) eqn:Eg;
    [discriminate|].
  apply orb_false_elim in Eg as [Eg1 Eg2].
  assert (Eg' : (outLength <=? outIndex st)
                || (len (s ++ more) <=? offset st) = false).
  { rewrite Eg1. simpl. rewrite len_app. apply Z.leb_gt.
    apply Z.leb_gt in Eg2. unfold len in *. lia. }
  rewrite Eg'.
  destruct (negb (Z.land flags (Z.shiftl 1 x) =? 0)).
  - destruct (read_backref s (offset st)) as [r| |] eqn:Er; cbn [bind];
      try discriminate.
    rewrite (read_backref_app s more _ r Ho Er). cbn [bind]. auto.
  - destruct (getitem s (offset st)) as [b| |] eqn:Eb; cbn [bind];
      try discriminate.
    rewrite (getitem_app s more _ b Ho Eb). cbn [bind]. auto.
Qed.

Lemma token_Break inData inLength outLength flags x st st' :
  token inData inLength outLength flags x st = Ok (Break st') ->
  st' = st /\
  (outIndex st <? outLength) && (offset st <? inLength) = false.
Proof.
  unfold token.
  destruct ((outLength <=? outIndex st) || (inLength <=? offset st)) eqn:Eg.
  - intros H; inversion H; subst. split; [reflexivity|].
    apply andb_false_iff. apply orb_true_iff in Eg as [Eg|Eg]; [left|right]; lia.
  - destruct (negb (Z.land flags (Z.shiftl 1 x) =? 0)).
    + destruct (read_backref inData (offset st)) as [[[pos copylen] off']| |];
        cbn [bind]; try discriminate.
      destruct (copy _ _ _ _); cbn [bind]; discriminate.
    + destruct (getitem inData (offset st)); cbn [bind]; try discriminate.
      destruct (setitem _ _ _); cbn [bind]; discriminate.
Qed.

(** The [while] loop returns only when its condition fails. *)
Lemma while_loop_exit inData inLength outLength fuel : forall st st',
  while_loop fuel inData inLength outLength st = Ok st' ->
  (outIndex st' <? outLength) && (offset st' <? inLength) = false.
Proof.
  induction fuel as [|fuel IH]; intros st st'; cbn [while_loop];
    destruct ((outIndex st <? outLength) && (offset st <? inLength)) eqn:Ec;
    try discriminate; try (intros H; inversion H; subst; assumption).
  destruct (getitem inData (offset st)) as [flags| |]; cbn [bind];
    try discriminate.
  case_for_each st1 Ef; cbn [bind]; try discriminate.
  apply IH.
Qed.

Section truncation.
Variables (s more : list Z) (outLength : Z).
Hypothesis stream_bytes : is_bytes (s ++ more) = true.

(** One flag byte's slots, on the stream and on the longer stream:
    the longer stream leaves the same state, or the short one stopped
    for lack of input and the longer one only added to the output. *)
Lemma bits_loop_app flags xs : forall st st_s r,
  inv (len s) outLength st ->
  for_each xs (token s (len s) outLength flags) st = Ok st_s ->
  for_each xs (token (s ++ more) (len (s ++ more)) outLength flags) st
    = Ok r ->
  r = st_s \/
  ((outIndex st_s <? outLength) && (offset st_s <? len s) = false /\
   extends st_s r).
Proof.
  induction xs as [|x xs IH]; intros st st_s r Hinv; cbn [for_each].
  - intros H1 H2. left. congruence.
  - destruct (token s (len s) outLength flags x st) as [[st1|st1]| |] eqn:Et;
      cbn [bind]; try discriminate.
    + rewrite (token_app _ more _ _ _ _ _ (proj1 (proj1 (proj2 (proj2 Hinv)))) Et).
      cbn [bind]. apply IH.
      apply token_step in Et as (H1 & _); [assumption| |assumption].
      now apply (is_bytes_app_l s more).
    + apply token_Break in Et as [-> Hstuck].
      intros H1 H2. inversion H1; subst. right. split; [assumption|].
      change (for_each (x :: xs)
                (token (s ++ more) (len (s ++ more)) outLength flags) st_s
              = Ok r) in H2.
      apply bits_loop_step in H2 as (_ & He & _);
        [assumption | assumption | now apply inv_app].
Qed.

(** The decoding of the stream and of the longer stream, from the same
    state: the longer one only adds to the output. *)
Lemma while_loop_app fuel : forall fuel' st st_s st',
  inv (len s) outLength st ->
  while_loop fuel s (len s) outLength st = Ok st_s ->
  while_loop fuel' (s ++ more) (len (s ++ more)) outLength st = Ok st' ->
  extends st_s st'.
Proof.
  induction fuel as [|fuel IH]; intros fuel' st st_s st' Hinv;
    cbn [while_loop];
    destruct ((outIndex st <? outLength) && (offset st <? len s)) eqn:Ec;
    try discriminate;
    try (intros H1 H2; inversion H1; subst;
         apply while_loop_step in H2 as (_ & He & _);
         [assumption | assumption | now apply inv_app]).
  assert (Ec' : (outIndex st <? outLength)
                && (offset st <? len (s ++ more)) = true).
  { apply andb_true_iff in Ec as [Ec1 Ec2]. apply andb_true_iff.
    split; [assumption|]. rewrite len_app. apply Z.ltb_lt.
    apply Z.ltb_lt in Ec2. unfold len in *. lia. }
  destruct (getitem s (offset st)) as [flags| |] eqn:Ef; cbn [bind];
    try discriminate.
  case_for_each st1 Es; cbn [bind]; try discriminate.
  intros H1.
  destruct fuel' as [|fuel']; cbn [while_loop]; rewrite Ec';
    [discriminate|].
  rewrite (getitem_app s more _ flags (proj1 (proj1 (proj2 (proj2 Hinv)))) Ef).
  cbn [bind].
  case_for_each r Er; cbn [bind]; try discriminate.
  intros H2.
  pose proof (inv_after_flag s outLength st Hinv Ec) as Hflag.
  pose proof (bits_loop_step s outLength (is_bytes_app_l _ _ stream_bytes)
                _ _ _ _ Hflag Es) as (Hinv1 & _).
  destruct (bits_loop_app _ _ _ _ _ Hflag Es Er) as [->|[Hstuck He]].
  - now apply (IH fuel' st1).
  - assert (st_s = st1) as ->.
    { destruct fuel; cbn [while_loop] in H1; rewrite Hstuck in H1;
        congruence. }
    apply (extends_trans _ r); [assumption|].
    apply bits_loop_step in Er as (Hinvr & _);
      [|assumption|now apply inv_app].
    now apply while_loop_step in H2 as (_ & He' & _).
Qed.
End truncation.

Lemma take_extends (k : nat) (l l' : list Z) :
  (forall i : nat, (i < k)%nat -> l' !! i = l !! i) -> take k l' = take k l.
Proof.
  intros H. apply list_eq. intros i.
  destruct (Nat.lt_ge_cases i k) as [Hlt|Hge].
  - rewrite !lookup_take_lt by assumption. now apply H.
  - now rewrite !lookup_take_ge by assumption.
Qed.

Lemma decode_Ok inData st :
  is_bytes inData = true ->
  decode inData = Ok st ->
  exists outLength start buf,
    GetUncompressedSize inData = Ok (outLength, start) /\
    bytearray outLength = Ok buf /\
    while_loop (length inData) inData (len inData) outLength
      (State start 0 buf) = Ok st /\
    inv (len inData) outLength st /\
    (outIndex st <? outLength) && (offset st <? len inData) = false.
Proof.
  intros Hb. unfold decode.
  destruct (GetUncompressedSize inData) as [[outLength start]| |] eqn:Eh;
    cbn [bind]; try discriminate.
  destruct (bytearray outLength) as [buf| |] eqn:Ebuf; cbn [bind];
    try discriminate.
  intros Hw. exists outLength, start, buf.
  repeat (split; [assumption || reflexivity|]). split.
  - apply while_loop_step in Hw as (Hinv & _); [assumption|assumption|].
    now apply (inv_start inData outLength start buf).
  - now apply while_loop_exit in Hw.
Qed.

(** Take a stream of bytes with marker 0x11 whose decoding raises
    nothing and stops with fewer than [outLength] bytes produced.  Then
    the whole input was read, the result has
    [outLength] bytes, every byte from [outIndex] on is zero, and the
    first [outIndex] bytes are the first [outIndex] bytes of what any
    longer stream with this one as a prefix decodes to. *)
Theorem truncated_stream_partial_result s more outLength start st :
  is_bytes (s ++ more) = true ->
  getitem s 0 = Ok 0x11 ->
  GetUncompressedSize s = Ok (outLength, start) ->
  decode s = Ok st ->
  outIndex st < outLength ->
  UncompressLZ77 s = Ok (outData st) /\
  offset st = len s /\
  len (outData st) = outLength /\
  (forall i, outIndex st <= i < outLength -> getitem (outData st) i = Ok 0) /\
  forall r', UncompressLZ77 (s ++ more) = Ok r' ->
    len r' = outLength /\
    take (Z.to_nat (outIndex st)) r'
    = take (Z.to_nat (outIndex st)) (outData st).
Proof.
  intros Hb Hm Hh Hd Hshort.
  pose proof (is_bytes_app_l _ _ Hb) as Hbs.
  destruct (decode_Ok s st Hbs Hd)
    as (outLength' & start' & buf & Hh' & Hbuf & Hw & Hinv & Hexit).
  rewrite Hh in Hh'. inversion Hh'; subst outLength' start'. clear Hh'.
  destruct Hinv as (Hlen & Hout & Hoff & Hzero).
  split.
  { unfold UncompressLZ77. rewrite Hm. cbn [bind].
    change (negb (17 =? 17)) with false. cbv iota. now rewrite Hd. }
  split.
  { apply andb_false_iff in Hexit as [Hexit|Hexit]; lia. }
  split; [assumption|]. split.
  { intros i Hi. apply getitem_in; [lia|]. apply Hzero. lia. }
  intros r'. unfold UncompressLZ77.
  rewrite (getitem_app s more 0 17 ltac:(lia) Hm). cbn [bind].
  change (negb (17 =? 17)) with false. cbv iota.
  destruct (decode (s ++ more)) as [st'| |] eqn:Ed'; cbn [bind];
    try discriminate.
  intros Hr'. inversion Hr'; subst r'. clear Hr'.
  destruct (decode_Ok (s ++ more) st' Hb Ed')
    as (outLength' & start' & buf' & Hh' & Hbuf' & Hw' & Hinv' & _).
  rewrite (GetUncompressedSize_app s more _ Hh) in Hh'.
  inversion Hh'; subst outLength' start'. clear Hh'.
  rewrite Hbuf in Hbuf'. inversion Hbuf'; subst buf'. clear Hbuf'.
  split; [apply Hinv'|].
  pose proof (while_loop_app s more outLength Hb _ _ _ _ _
                (inv_start s outLength start buf Hh Hbuf) Hw Hw')
    as [_ Hsame].
  apply take_extends. intros i Hi. apply Hsame. lia.
Qed.

Lemma truncated_stream_partial_result_witness :
  let s := [0x11; 8; 0; 0; 0x08; 0x41; 0x42] in
  let more := [0x43; 0x44; 0x30; 0] in
  let st := State 7 2 [0x41; 0x42; 0; 0; 0; 0; 0; 0] in
  UncompressLZ77 s = Ok (outData st) /\
  offset st = len s /\
  len (outData st) = 8 /\
  (forall i, outIndex st <= i < 8 -> getitem (outData st) i = Ok 0) /\
  forall r', UncompressLZ77 (s ++ more) = Ok r' ->
    len r' = 8 /\
    take (Z.to_nat (outIndex st)) r'
    = take (Z.to_nat (outIndex st)) (outData st).
Proof.
  cbv zeta.
  apply (truncated_stream_partial_result
           [0x11; 8; 0; 0; 0x08; 0x41; 0x42] [0x43; 0x44; 0x30; 0] 8 4
           (State 7 2 [0x41; 0x42; 0; 0; 0; 0; 0; 0]));
    try reflexivity.
Defined.

(** C4 as worded fails: [11 08 00 00 40 41 60 00] decodes to eight bytes
    0x41; cut before its last byte, the stream ends inside the
    back-reference token [60 00], after one byte of output, and
    [UncompressLZ77] raises [IndexError] instead of returning a partial
    buffer. *)
Lemma truncated_inside_token_raises :
  let full := [0x11; 8; 0; 0; 0x40; 0x41; 0x60; 0] in
  let stream := [0x11; 8; 0; 0; 0x40; 0x41; 0x60] in
  stream = take 7 full /\
  UncompressLZ77 full = Ok (replicate 8 0x41) /\
  getitem stream 0 = Ok 0x11 /\
  GetUncompressedSize stream = Ok (8, 4) /\
  token stream (len stream) 8 0x40 7 (State 5 0 (replicate 8 0))
    = Ok (Next (State 6 1 [0x41; 0; 0; 0; 0; 0; 0; 0])) /\
  token stream (len stream) 8 0x40 6 (State 6 1 [0x41; 0; 0; 0; 0; 0; 0; 0])
    = Raise IndexError /\
  UncompressLZ77 stream = Raise IndexError.
Proof. cbv zeta. repeat split; reflexivity. Qed.

(** ** Cutting a stream at a token slot *)

Lemma for_visits_offset inData inLength outLength flags xs u x t :
  for_visits (token inData inLength outLength flags) xs u x t ->
  offset u <= offset t.
Proof.
  intros Hv.
  apply (for_visits_keeps _ (fun s => offset u <= offset s) _ _ _ _) in Hv;
    [assumption| |lia].
  intros y s s' Hs Hy. apply token_offset in Hy. simpl in Hy. lia.
Qed.

Lemma bits_loop_offset inData inLength outLength flags xs u u' :
  for_each xs (token inData inLength outLength flags) u = Ok u' ->
  offset u <= offset u'.
Proof.
  intros H.
  apply (for_each_keeps _ (fun s => offset u <= offset s)) in H;
    [assumption| |lia].
  intros y s r Hs Hr. apply token_offset in Hr. lia.
Qed.

Lemma while_visits_offset inData inLength outLength fuel st flags x t :
  while_visits inData inLength outLength fuel st flags x t ->
  offset st < offset t.
Proof.
  intros Hv.
  induction Hv as [fuel st flags x t Hc Hf Hv
                  |fuel st flags st' flags' x t Hc Hf Hs Hv IH].
  - apply for_visits_offset in Hv. simpl in Hv. lia.
  - apply bits_loop_offset in Hs. simpl in Hs. lia.
Qed.

Lemma while_loop_stop inData inLength outLength fuel st :
  (outIndex st <? outLength) && (offset st <? inLength) = false ->
  while_loop fuel inData inLength outLength st = Ok st.
Proof. intros Hc. destruct fuel; cbn [while_loop]; now rewrite Hc. Qed.

(** A result reached with some fuel is reached with any fuel that does
    not run out. *)
Lemma while_loop_any_fuel inData inLength outLength fuel :
  forall fuel' st r,
  while_loop fuel inData inLength outLength st = Ok r ->
  while_loop fuel' inData inLength outLength st <> OutOfFuel ->
  while_loop fuel' inData inLength outLength st = Ok r.
Proof.
  induction fuel as [|fuel IH]; intros fuel' st r;
    destruct fuel' as [|fuel']; cbn [while_loop];
    destruct ((outIndex st <? outLength) && (offset st <? inLength));
    try discriminate; try congruence; auto.
  destruct (getitem inData (offset st)) as [flags| |]; cbn [bind];
    try discriminate.
  case_for_each st1 Ef; cbn [bind]; try discriminate.
  apply IH.
Qed.

Section cut.
Variables (full : list Z) (outLength n : Z).
Hypothesis cut_inside : 0 <= n <= len full.

Let s := take (Z.to_nat n) full.

Lemma len_cut : len s = n.
Proof.
  unfold len, s. rewrite length_take_le; unfold len in *; lia.
Qed.

Lemma getitem_cut i b :
  0 <= i < n -> getitem full i = Ok b -> getitem s i = Ok b.
Proof.
  intros Hi H. apply getitem_Ok_nonneg in H as [_ Hl]; [|lia].
  apply getitem_in; [lia|]. unfold s. rewrite lookup_take_lt by lia.
  assumption.
Qed.

Lemma GetUncompressedSize_cut L start :
  GetUncompressedSize full = Ok (L, start) -> start <= n ->
  GetUncompressedSize s = Ok (L, start).
Proof.
  unfold GetUncompressedSize.
  destruct (getitem full 1) as [b1| |] eqn:E1; cbn [bind]; try discriminate.
  destruct (getitem full 2) as [b2| |] eqn:E2; cbn [bind]; try discriminate.
  destruct (getitem full 3) as [b3| |] eqn:E3; cbn [bind]; try discriminate.
  destruct (_ =? 0) eqn:E0.
  - destruct (getitem full 4) as [b4| |] eqn:E4; cbn [bind]; try discriminate.
    destruct (getitem full 5) as [b5| |] eqn:E5; cbn [bind]; try discriminate.
    destruct (getitem full 6) as [b6| |] eqn:E6; cbn [bind]; try discriminate.
    destruct (getitem full 7) as [b7| |] eqn:E7; cbn [bind]; try discriminate.
    intros H Hn. inversion H; subst.
    rewrite (getitem_cut 1 b1), (getitem_cut 2 b2), (getitem_cut 3 b3)
      by (lia || assumption).
    cbn [bind]. rewrite E0.
    rewrite (getitem_cut 4 b4), (getitem_cut 5 b5), (getitem_cut 6 b6),
      (getitem_cut 7 b7) by (lia || assumption).
    reflexivity.
  - intros H Hn. inversion H; subst.
    rewrite (getitem_cut 1 b1), (getitem_cut 2 b2), (getitem_cut 3 b3)
      by (lia || assumption).
    cbn [bind]. now rewrite E0.
Qed.

Lemma read_backref_cut off pos copylen off' :
  0 <= off ->
  read_backref full off = Ok (pos, copylen, off') -> off' <= n ->
  read_backref s off = Ok (pos, copylen, off').
Proof.
  intros Ho. unfold read_backref.
  destruct (getitem full off) as [first| |] eqn:E1; cbn [bind];
    try discriminate.
  destruct (getitem full (off + 1)) as [second| |] eqn:E2; cbn [bind];
    try discriminate.
  destruct (first <? 32) eqn:E32.
  - destruct (getitem full (off + 1 + 1)) as [third| |] eqn:E3; cbn [bind];
      try discriminate.
    destruct (16 <=? first) eqn:E16.
    + destruct (getitem full (off + 1 + 1 + 1)) as [fourth| |] eqn:E4;
        cbn [bind]; try discriminate.
      intros H Hn. inversion H; subst.
      rewrite (getitem_cut off first), (getitem_cut (off + 1) second)
        by (lia || assumption).
      cbn [bind]. rewrite E32.
      rewrite (getitem_cut (off + 1 + 1) third) by (lia || assumption).
      cbn [bind]. rewrite E16.
      rewrite (getitem_cut (off + 1 + 1 + 1) fourth) by (lia || assumption).
      reflexivity.
    + intros H Hn. inversion H; subst.
      rewrite (getitem_cut off first), (getitem_cut (off + 1) second)
        by (lia || assumption).
      cbn [bind]. rewrite E32.
      rewrite (getitem_cut (off + 1 + 1) third) by (lia || assumption).
      cbn [bind]. now rewrite E16.
  - intros H Hn. inversion H; subst.
    rewrite (getitem_cut off first), (getitem_cut (off + 1) second)
      by (lia || assumption).
    cbn [bind]. now rewrite E32.
Qed.

Lemma token_cut flags x u u' :
  0 <= offset u ->
  token full (len full) outLength flags x u = Ok (Next u') ->
  offset u' <= n ->
  token s n outLength flags x u = Ok (Next u').
Proof.
  intros Ho Ht Hn.
  pose proof (token_offset _ _ _ _ _ _ _ Ht) as Hmono. simpl in Hmono.
  revert Ht. unfold token.
  destruct ((outLength <=? outIndex u) || (len full <=? offset u)) eqn:Eg;
    [discriminate|].
  apply orb_false_elim in Eg as [Eg1 Eg2]. rewrite Eg1. cbn [orb].
  destruct (negb (Z.land flags (Z.shiftl 1 x) =? 0)).
  - destruct (read_backref full (offset u)) as [[[pos copylen] off']| |]
      eqn:Er; cbn [bind]; try discriminate.
    pose proof (read_backref_offset _ _ _ _ _ Er) as Hlt.
    destruct (copy (outIndex u) pos copylen (outData u)) as [out'| |] eqn:Ec;
      cbn [bind]; try discriminate.
    intros H. inversion H; subst u'. simpl in Hn.
    destruct (n <=? offset u) eqn:En; [lia|].
    rewrite (read_backref_cut _ _ _ _ Ho Er Hn). cbn [bind].
    now rewrite Ec.
  - destruct (getitem full (offset u)) as [b| |] eqn:Eb; cbn [bind];
      try discriminate.
    destruct (setitem (outData u) (outIndex u) b) as [out'| |] eqn:Es;
      cbn [bind]; try discriminate.
    intros H. inversion H; subst u'. simpl in Hn.
    destruct (n <=? offset u) eqn:En; [lia|].
    rewrite (getitem_cut _ b) by (lia || assumption). cbn [bind].
    now rewrite Es.
Qed.

Lemma token_cut_Break flags x u u' :
  token full (len full) outLength flags x u = Ok (Break u') ->
  token s n outLength flags x u = Ok (Break u').
Proof.
  intros Ht. pose proof (token_Break _ _ _ _ _ _ _ Ht) as [-> Hstuck].
  unfold token.
  destruct ((outLength <=? outIndex u) || (n <=? offset u)) eqn:Eg;
    [reflexivity|].
  apply orb_false_elim in Eg as [Eg1 Eg2].
  apply andb_false_iff in Hstuck as [H|H]; lia.
Qed.

Lemma bits_loop_cut flags xs : forall u u',
  0 <= offset u ->
  for_each xs (token full (len full) outLength flags) u = Ok u' ->
  offset u' <= n ->
  for_each xs (token s n outLength flags) u = Ok u'.
Proof.
  induction xs as [|x xs IH]; intros u u' Ho; cbn [for_each]; [auto|].
  destruct (token full (len full) outLength flags x u) as [[u1|u1]| |] eqn:Et;
    cbn [bind]; try discriminate.
  - intros H Hn.
    pose proof (bits_loop_offset _ _ _ _ _ _ _ H) as Hmono.
    pose proof (token_offset _ _ _ _ _ _ _ Et) as Hmono1. simpl in Hmono1.
    rewrite (token_cut _ _ _ _ Ho Et) by lia. cbn [bind].
    apply IH; [lia | assumption | assumption].
  - intros H Hn. rewrite (token_cut_Break _ _ _ _ Et). cbn [bind].
    assumption.
Qed.

Lemma bits_visit_cut flags xs u x t :
  0 <= offset u ->
  for_visits (token full (len full) outLength flags) xs u x t ->
  offset t = n ->
  for_each xs (token s n outLength flags) u = Ok t.
Proof.
  intros Ho Hv Hn.
  induction Hv as [x xs u|x xs u u' y t Hx Hv IH]; cbn [for_each].
  - unfold token.
    destruct ((outLength <=? outIndex u) || (n <=? offset u)) eqn:Eg;
      [reflexivity|].
    apply orb_false_elim in Eg as [_ Eg]. lia.
  - pose proof (for_visits_offset _ _ _ _ _ _ _ _ Hv) as Hmono.
    pose proof (token_offset _ _ _ _ _ _ _ Hx) as Hmono1. simpl in Hmono1.
    rewrite (token_cut _ _ _ _ Ho Hx) by lia. cbn [bind].
    apply IH; [lia | assumption].
Qed.

Lemma while_visit_cut fuel st flags x t :
  0 <= offset st ->
  while_visits full (len full) outLength fuel st flags x t ->
  offset t = n ->
  while_loop fuel s n outLength st = Ok t.
Proof.
  intros Ho Hv Hn.
  induction Hv as [fuel st flags x t Hc Hf Hv
                  |fuel st flags st' flags' x t Hc Hf Hs Hv IH];
    cbn [while_loop].
  - pose proof (for_visits_offset _ _ _ _ _ _ _ _ Hv) as Hmono.
    simpl in Hmono. apply andb_true_iff in Hc as [Hc1 Hc2].
    rewrite Hc1. cbn [andb].
    destruct (offset st <? n) eqn:En; [|lia].
    rewrite (getitem_cut _ flags) by (lia || assumption). cbn [bind].
    assert (Ho' : 0 <= offset (State (offset st + 1) (outIndex st)
                                 (outData st))) by (simpl; lia).
    rewrite (bits_visit_cut _ _ _ _ _ Ho' Hv Hn). cbn [bind].
    apply while_loop_stop. apply andb_false_iff. right. lia.
  - pose proof (bits_loop_offset _ _ _ _ _ _ _ Hs) as Hmono.
    pose proof (while_visits_offset _ _ _ _ _ _ _ _ Hv) as Hmono'.
    simpl in Hmono. apply andb_true_iff in Hc as [Hc1 Hc2].
    rewrite Hc1. cbn [andb].
    destruct (offset st <? n) eqn:En; [|lia].
    rewrite (getitem_cut _ flags) by (lia || assumption). cbn [bind].
    assert (Ho' : 0 <= offset (State (offset st + 1) (outIndex st)
                                 (outData st))) by (simpl; lia).
    rewrite (bits_loop_cut _ _ _ _ Ho' Hs) by lia. cbn [bind].
    apply IH; [lia | assumption].
Qed.
End cut.

(** Cutting a stream of bytes where its decoding is about to decode a
    token gives a stream that decodes, raising nothing, to the cursor and
    buffer the longer decoding had at that point. *)
Theorem decode_cut_at_slot full outLength flags x t :
  is_bytes full = true ->
  reaches full outLength flags x t ->
  decode (take (Z.to_nat (offset t)) full) = Ok t.
Proof.
  intros Hb Hreach.
  pose proof (reaches_inv _ _ _ _ _ Hb Hreach) as (_ & _ & Hoff & _).
  destruct Hreach as (start & buf & Hm & Hh & Hbuf & Hv).
  pose proof (while_visits_offset _ _ _ _ _ _ _ _ Hv) as Hlt. simpl in Hlt.
  pose proof (GetUncompressedSize_Ok_len _ _ _ Hh) as [Hs _].
  unfold decode.
  rewrite (GetUncompressedSize_cut full (offset t) _ _ Hh) by lia.
  cbn [bind]. rewrite Hbuf. cbn [bind].
  rewrite (len_cut full (offset t) Hoff).
  apply (while_loop_any_fuel _ _ _ (length full)).
  - eapply while_visit_cut;
      [exact Hoff | simpl; lia | exact Hv | reflexivity].
  - apply while_loop_fuel. simpl.
    rewrite <- (len_cut full (offset t) Hoff) at 1. unfold len. lia.
Qed.

(** * Further properties of the decoder *)

(** ** Headers given byte by byte *)

Lemma GetUncompressedSize_field24 m b1 b2 b3 (rest : list Z) :
  Z.lor (Z.lor b1 (Z.shiftl b2 8)) (Z.shiftl b3 16) <> 0 ->
  GetUncompressedSize (m :: b1 :: b2 :: b3 :: rest)
  = Ok (Z.lor (Z.lor b1 (Z.shiftl b2 8)) (Z.shiftl b3 16), 4).
Proof.
  intros Hne. unfold GetUncompressedSize.
  rewrite (getitem_in _ 1 b1) by (reflexivity || lia).
  rewrite (getitem_in _ 2 b2) by (reflexivity || lia).
  rewrite (getitem_in _ 3 b3) by (reflexivity || lia).
  cbn [bind]. destruct (_ =? 0) eqn:E; [lia | reflexivity].
Qed.

Lemma GetUncompressedSize_field32 m b4 b5 b6 b7 (rest : list Z) :
  GetUncompressedSize (m :: 0 :: 0 :: 0 :: b4 :: b5 :: b6 :: b7 :: rest)
  = Ok (Z.lor (Z.lor (Z.lor b4 (Z.shiftl b5 8)) (Z.shiftl b6 16))
              (Z.shiftl b7 24), 8).
Proof.
  unfold GetUncompressedSize.
  rewrite (getitem_in _ 1 0) by (reflexivity || lia).
  rewrite (getitem_in _ 2 0) by (reflexivity || lia).
  rewrite (getitem_in _ 3 0) by (reflexivity || lia).
  cbn [bind]. change (Z.lor (Z.lor 0 (Z.shiftl 0 8)) (Z.shiftl 0 16) =? 0)
    with true. cbv iota.
  rewrite (getitem_in _ 4 b4) by (reflexivity || lia).
  rewrite (getitem_in _ 5 b5) by (reflexivity || lia).
  rewrite (getitem_in _ 6 b6) by (reflexivity || lia).
  rewrite (getitem_in _ 7 b7) by (reflexivity || lia).
  reflexivity.
Qed.



(** The fuel [decode] gives the [while] loop is enough. *)
Lemma decode_fuel inData : decode inData <> OutOfFuel.
Proof.
  unfold decode.
  pose proof (GetUncompressedSize_fuel inData).
  destruct (GetUncompressedSize inData) as [[outLength start]| |] eqn:Eh;
    cbn [bind]; try congruence.
  apply GetUncompressedSize_Ok_len in Eh as [Hs _].
  unfold bytearray. destruct (outLength <? 0); cbn [bind]; [discriminate|].
  apply while_loop_fuel. unfold len. simpl. lia.
Qed.

(** ** What the header can yield *)

Lemma land_15_mod a : Z.land a 15 = a mod 16.
Proof. change 15 with (Z.ones 4). now rewrite Z.land_ones by lia. Qed.

Lemma shiftr_4_div a : Z.shiftr a 4 = a / 16.
Proof. now rewrite Z.shiftr_div_pow2 by lia. Qed.

(** On bytes, the header gives a length below [2^24] and not zero with
    the token section at 4, or a length below [2^32] with the token
    section at 8; it fails, with [IndexError], only on inputs shorter
    than 8 bytes. *)
Theorem GetUncompressedSize_bytes inData :
  is_bytes inData = true ->
  match GetUncompressedSize inData with
  | Ok (L, start) =>
      (start = 4 /\ 4 <= len inData /\ 0 < L < 2 ^ 24) \/
      (start = 8 /\ 8 <= len inData /\ 0 <= L < 2 ^ 32)
  | Raise e => e = IndexError /\ len inData < 8
  | OutOfFuel => False
  end.
Proof.
  intros Hb. unfold GetUncompressedSize.
  assert (Hraise : forall i, 0 <= i < 8 -> forall e,
            getitem inData i = Raise e -> e = IndexError /\ len inData < 8).
  { intros i Hi e He. split; [now apply getitem_raise in He|].
    destruct (Z.lt_ge_cases i (len inData)) as [Hlt|Hge]; [|lia].
    destruct (getitem_total inData i) as [b Hb']; [lia | congruence]. }
  destruct (getitem inData 1) as [b1|e|] eqn:E1; cbn [bind];
    [|now apply (Hraise 1)|now apply getitem_fuel in E1].
  destruct (getitem inData 2) as [b2|e|] eqn:E2; cbn [bind];
    [|now apply (Hraise 2)|now apply getitem_fuel in E2].
  destruct (getitem inData 3) as [b3|e|] eqn:E3; cbn [bind];
    [|now apply (Hraise 3)|now apply getitem_fuel in E3].
  pose proof (getitem_is_bytes _ _ _ Hb E1) as B1.
  pose proof (getitem_is_bytes _ _ _ Hb E2) as B2.
  pose proof (getitem_is_bytes _ _ _ Hb E3) as B3.
  apply getitem_Ok_nonneg in E3 as [L3 _]; [|lia].
  rewrite (lor_shiftl_add b1) by lia. rewrite lor_shiftl_add by lia.
  destruct (_ =? 0) eqn:E0.
  - destruct (getitem inData 4) as [b4|e|] eqn:E4; cbn [bind];
      [|now apply (Hraise 4)|now apply getitem_fuel in E4].
    destruct (getitem inData 5) as [b5|e|] eqn:E5; cbn [bind];
      [|now apply (Hraise 5)|now apply getitem_fuel in E5].
    destruct (getitem inData 6) as [b6|e|] eqn:E6; cbn [bind];
      [|now apply (Hraise 6)|now apply getitem_fuel in E6].
    destruct (getitem inData 7) as [b7|e|] eqn:E7; cbn [bind];
      [|now apply (Hraise 7)|now apply getitem_fuel in E7].
    pose proof (getitem_is_bytes _ _ _ Hb E4) as B4.
    pose proof (getitem_is_bytes _ _ _ Hb E5) as B5.
    pose proof (getitem_is_bytes _ _ _ Hb E6) as B6.
    pose proof (getitem_is_bytes _ _ _ Hb E7) as B7.
    apply getitem_Ok_nonneg in E7 as [L7 _]; [|lia].
    rewrite (lor_shiftl_add b4) by lia.
    rewrite (lor_shiftl_add _ _ 16) by lia.
    rewrite lor_shiftl_add by lia.
    right. lia.
  - left. lia.
Qed.

Lemma GetUncompressedSize_bytes_witness :
  match GetUncompressedSize [0x11; 0; 1; 0; 9] with
  | Ok (L, start) =>
      (start = 4 /\ 4 <= len [0x11; 0; 1; 0; 9] /\ 0 < L < 2 ^ 24) \/
      (start = 8 /\ 8 <= len [0x11; 0; 1; 0; 9] /\ 0 <= L < 2 ^ 32)
  | Raise e => e = IndexError /\ len [0x11; 0; 1; 0; 9] < 8
  | OutOfFuel => False
  end.
Proof. apply (GetUncompressedSize_bytes [0x11; 0; 1; 0; 9]). reflexivity. Defined.

(** ** The three token widths *)

Lemma lor_nibble_byte a b :
  0 <= b < 256 -> Z.lor (Z.shiftl (Z.land a 15) 8) b = a mod 16 * 256 + b.
Proof.
  intros Hb. rewrite land_15_mod, Z.lor_comm, lor_shiftl_add by lia. lia.
Qed.

Lemma backref_length_3 first second :
  0 <= second < 256 ->
  Z.lor (Z.shiftl (Z.land first 15) 4) (Z.shiftr second 4)
  = first mod 16 * 16 + second / 16.
Proof.
  intros Hs. rewrite land_15_mod, shiftr_4_div, Z.lor_comm.
  rewrite lor_shiftl_add by (Z.div_mod_to_equations; lia). lia.
Qed.

Lemma backref_length_4 first second third :
  0 <= second < 256 -> 0 <= third < 256 ->
  Z.lor (Z.lor (Z.shiftl second 4) (Z.shiftl (Z.land first 15) 12))
        (Z.shiftr third 4)
  = first mod 16 * 4096 + second * 16 + third / 16.
Proof.
  intros Hs Ht. rewrite land_15_mod, shiftr_4_div.
  assert (H4 : Z.shiftl second 4 = second * 16)
    by (now rewrite Z.shiftl_mul_pow2 by lia).
  rewrite (lor_shiftl_add (Z.shiftl second 4)) by (rewrite ?H4; lia).
  rewrite H4.
  replace (second * 16 + first mod 16 * 2 ^ 12)
    with (Z.shiftl (second + first mod 16 * 256) 4)
    by (rewrite Z.shiftl_mul_pow2 by lia; lia).
  rewrite Z.lor_comm.
  rewrite lor_shiftl_add by (Z.div_mod_to_equations; lia). lia.
Qed.

(** On bytes, a back-reference that is read has a distance in
    [1, 4096]; by its first byte it takes 2 bytes and has a length in
    [3, 16], or takes 3 bytes and has a length in [17, 272], or takes 4
    bytes and has a length in [273, 65808]. *)
Theorem read_backref_ranges inData off pos copylen off' :
  is_bytes inData = true -> 0 <= off ->
  read_backref inData off = Ok (pos, copylen, off') ->
  exists first,
    getitem inData off = Ok first /\
    1 <= pos <= 4096 /\
    ((32 <= first /\ off' = off + 2 /\ 3 <= copylen <= 16) \/
     (first < 16 /\ off' = off + 3 /\ 17 <= copylen <= 272) \/
     (16 <= first < 32 /\ off' = off + 4 /\ 273 <= copylen <= 65808)).
Proof.
  intros Hb Ho. unfold read_backref.
  destruct (getitem inData off) as [first| |] eqn:E1; cbn [bind];
    try discriminate.
  destruct (getitem inData (off + 1)) as [second| |] eqn:E2; cbn [bind];
    try discriminate.
  pose proof (getitem_is_bytes _ _ _ Hb E1) as B1.
  pose proof (getitem_is_bytes _ _ _ Hb E2) as B2.
  destruct (first <? 32) eqn:E32.
  - destruct (getitem inData (off + 1 + 1)) as [third| |] eqn:E3; cbn [bind];
      try discriminate.
    pose proof (getitem_is_bytes _ _ _ Hb E3) as B3.
    destruct (16 <=? first) eqn:E16.
    + destruct (getitem inData (off + 1 + 1 + 1)) as [fourth| |] eqn:E4;
        cbn [bind]; try discriminate.
      pose proof (getitem_is_bytes _ _ _ Hb E4) as B4.
      intros H; inversion H; subst. exists first. split; [reflexivity|].
      rewrite lor_nibble_byte, backref_length_4 by lia.
      split; [Z.div_mod_to_equations; lia|].
      right. right. Z.div_mod_to_equations; lia.
    + intros H; inversion H; subst. exists first. split; [reflexivity|].
      rewrite lor_nibble_byte, backref_length_3 by lia.
      split; [Z.div_mod_to_equations; lia|].
      right. left. Z.div_mod_to_equations; lia.
  - intros H; inversion H; subst. exists first. split; [reflexivity|].
    rewrite lor_nibble_byte, shiftr_4_div by lia.
    split; [Z.div_mod_to_equations; lia|].
    left. Z.div_mod_to_equations; lia.
Qed.

Lemma read_backref_ranges_witness :
  exists first,
    getitem [0x15; 0x12; 0x34; 0x56] 0 = Ok first /\
    1 <= 1111 <= 4096 /\
    ((32 <= first /\ 4 = 0 + 2 /\ 3 <= 21044 <= 16) \/
     (first < 16 /\ 4 = 0 + 3 /\ 17 <= 21044 <= 272) \/
     (16 <= first < 32 /\ 4 = 0 + 4 /\ 273 <= 21044 <= 65808)).
Proof.
  apply (read_backref_ranges [0x15; 0x12; 0x34; 0x56] 0 1111 21044 4);
    [reflexivity | lia | reflexivity].
Defined.

(** ** The exception raised and the result returned *)

Lemma setitem_raise (l : list Z) i v e : setitem l i v = Raise e -> e = IndexError.
Proof.
  unfold setitem, py_index.
  destruct ((0 <=? i) && (i <? len l)); cbn [bind]; [discriminate|].
  destruct ((- len l <=? i) && (i <? 0)); cbn [bind]; congruence.
Qed.

Lemma for_each_raise {S : Type} (body : Z -> S -> result (flow S))
    (P : exn -> Prop) xs : forall s e,
  (forall x s e, body x s = Raise e -> P e) ->
  for_each xs body s = Raise e -> P e.
Proof.
  induction xs as [|x xs IH]; intros s e Hb; cbn [for_each]; [discriminate|].
  destruct (body x s) as [[s1|s1]|e1|] eqn:E; cbn [bind]; try discriminate.
  - now apply IH.
  - intros H; inversion H; subst. now apply (Hb x s).
Qed.

Lemma copy_raise outIndex pos copylen out e :
  copy outIndex pos copylen out = Raise e -> e = IndexError.
Proof.
  apply (for_each_raise _ (fun e => e = IndexError)).
  intros y s e'. unfold copy_byte.
  destruct (getitem s (outIndex - pos + y)) as [b| |] eqn:Eg; cbn [bind];
    try discriminate.
  - destruct (setitem s (outIndex + y) b) eqn:Es; cbn [bind]; try discriminate.
    intros H; inversion H; subst. now apply setitem_raise in Es.
  - intros H; inversion H; subst. now apply getitem_raise in Eg.
Qed.

Lemma read_backref_raise inData off e :
  read_backref inData off = Raise e -> e = IndexError.
Proof.
  unfold read_backref.
  destruct (getitem inData off) as [first| |] eqn:E1; cbn [bind];
    [|intros H; inversion H; subst; now apply getitem_raise in E1
     |discriminate].
  destruct (getitem inData (off + 1)) as [second| |] eqn:E2; cbn [bind];
    [|intros H; inversion H; subst; now apply getitem_raise in E2
     |discriminate].
  destruct (first <? 32); [|discriminate].
  destruct (getitem inData (off + 1 + 1)) as [third| |] eqn:E3; cbn [bind];
    [|intros H; inversion H; subst; now apply getitem_raise in E3
     |discriminate].
  destruct (16 <=? first); [|discriminate].
  destruct (getitem inData (off + 1 + 1 + 1)) as [fourth| |] eqn:E4;
    cbn [bind];
    [discriminate|intros H; inversion H; subst; now apply getitem_raise in E4
     |discriminate].
Qed.





(** On bytes with marker 0x11, a result returned has exactly the
    length the header declares, and decoding has stopped because the
    output is full or because the input is used up. *)
Theorem UncompressLZ77_result_length inData r :
  is_bytes inData = true ->
  getitem inData 0 = Ok 0x11 ->
  UncompressLZ77 inData = Ok r ->
  exists outLength start st,
    GetUncompressedSize inData = Ok (outLength, start) /\
    decode inData = Ok st /\ r = outData st /\
    len r = outLength /\
    (outIndex st = outLength \/
     (outIndex st < outLength /\ offset st = len inData)).
Proof.
  intros Hb Hm. unfold UncompressLZ77. rewrite Hm. cbn [bind].
  change (negb (17 =? 17)) with false. cbv iota.
  destruct (decode inData) as [st| |] eqn:Ed; cbn [bind]; try discriminate.
  intros H; inversion H; subst r.
  destruct (decode_Ok inData st Hb Ed)
    as (outLength & start & buf & Hh & _ & _ & Hinv & Hexit).
  destruct Hinv as (Hlen & Hout & Hoff & _).
  exists outLength, start, st. repeat (split; [assumption || reflexivity|]).
  apply andb_false_iff in Hexit as [Hexit|Hexit]; lia.
Qed.

Lemma UncompressLZ77_result_length_witness :
  exists outLength start st,
    GetUncompressedSize [0x11; 8; 0; 0; 0x08; 0x41; 0x42] = Ok (outLength, start) /\
    decode [0x11; 8; 0; 0; 0x08; 0x41; 0x42] = Ok st /\
    [0x41; 0x42; 0; 0; 0; 0; 0; 0] = outData st /\
    len [0x41; 0x42; 0; 0; 0; 0; 0; 0] = outLength /\
    (outIndex st = outLength \/
     (outIndex st < outLength /\
      offset st = len [0x11; 8; 0; 0; 0x08; 0x41; 0x42])).
Proof.
  apply (UncompressLZ77_result_length [0x11; 8; 0; 0; 0x08; 0x41; 0x42]);
    reflexivity.
Defined.

(** ** What a copy inside the buffer writes *)

Lemma getitem_lookup_eq (l l' : list Z) i j :
  0 <= i < len l -> 0 <= j < len l' ->
  l !! Z.to_nat i = l' !! Z.to_nat j -> getitem l i = getitem l' j.
Proof.
  intros Hi Hj H. unfold getitem.
  rewrite !py_index_in by assumption. cbn [bind]. now rewrite H.
Qed.

(** A copy from inside the buffer: every byte written equals the byte
    [pos] positions before it. *)
Lemma copy_recurrence outIndex pos copylen out :
  1 <= pos <= outIndex -> 0 <= copylen ->
  outIndex + copylen <= len out ->
  exists out',
    copy outIndex pos copylen out = Ok out' /\
    len out' = len out /\
    (forall i : nat,
       Z.of_nat i < outIndex \/ outIndex + copylen <= Z.of_nat i ->
       out' !! i = out !! i) /\
    forall y, 0 <= y < copylen ->
      out' !! Z.to_nat (outIndex + y) = out' !! Z.to_nat (outIndex + y - pos).
Proof.
  intros Hpos Hcl Hend.
  destruct (copy_rounds_total outIndex pos (Z.to_nat copylen) 0 out)
    as [out' Hcopy]; try lia.
  rewrite Z2Nat.id in Hcopy by lia.
  fold (range copylen) in Hcopy. fold (copy outIndex pos copylen out) in Hcopy.
  exists out'. split; [assumption|].
  pose proof Hcopy as Hall. unfold copy, range in Hall.
  rewrite <- (Z2Nat.id copylen) in Hall at 1 by lia.
  apply copy_rounds_Ok in Hall as (Hlen & _ & Hframe); [|lia].
  split; [assumption|]. split.
  { intros i Hi. apply Hframe. lia. }
  intros y Hy.
  rewrite (copy_split _ _ _ y) in Hcopy by assumption.
  destruct (copy outIndex pos y out) as [mid| |] eqn:Emid;
    cbn [bind] in Hcopy; try discriminate.
  unfold copy, range in Emid. rewrite <- (Z2Nat.id y) in Emid by lia.
  apply copy_rounds_Ok in Emid as (Hmlen & _ & _); [|lia].
  unfold copy_byte at 1 in Hcopy.
  destruct (getitem mid (outIndex - pos + y)) as [b| |] eqn:Eb;
    cbn [bind] in Hcopy; try discriminate.
  apply getitem_Ok_nonneg in Eb as [_ Eb]; [|lia].
  rewrite setitem_in in Hcopy by lia. cbn [bind flow_state] in Hcopy.
  rewrite <- (Z2Nat.id (copylen - y - 1)) in Hcopy by lia.
  apply copy_rounds_Ok in Hcopy as (_ & _ & Hsame); [|lia].
  rewrite !Hsame by lia.
  rewrite list_lookup_insert_eq by (unfold len in *; lia).
  rewrite list_lookup_insert_ne by lia.
  replace (outIndex + y - pos) with (outIndex - pos + y) by lia.
  now rewrite Eb.
Qed.

(** A back-reference copy that stays inside the buffer
    ([1 <= pos <= outIndex], [outIndex + copylen <= len(outData)]) raises
    nothing, keeps the length of the buffer and every byte outside
    [outIndex, outIndex + copylen), and fills these positions with the
    [pos] bytes before [outIndex], repeated: the byte at [outIndex + y] is
    the byte the buffer had at [outIndex - pos + y mod pos]. *)
Theorem copy_repeats_pattern outIndex pos copylen out :
  1 <= pos <= outIndex -> 0 <= copylen ->
  outIndex + copylen <= len out ->
  exists out',
    copy outIndex pos copylen out = Ok out' /\
    len out' = len out /\
    (forall i, 0 <= i < outIndex \/ outIndex + copylen <= i < len out ->
       getitem out' i = getitem out i) /\
    forall y, 0 <= y < copylen ->
      getitem out' (outIndex + y) = getitem out (outIndex - pos + (y mod pos)).
Proof.
  intros Hpos Hcl Hend.
  destruct (copy_recurrence outIndex pos copylen out Hpos Hcl Hend)
    as (out' & Hcopy & Hlen & Hframe & Hrec).
  exists out'. split; [assumption|]. split; [assumption|]. split.
  { intros i Hi. apply getitem_lookup_eq; try lia. apply Hframe. lia. }
  assert (Hind : forall n : nat, forall y, 0 <= y < copylen ->
            y < Z.of_nat n ->
            out' !! Z.to_nat (outIndex + y)
            = out !! Z.to_nat (outIndex - pos + (y mod pos))).
  { induction n as [|n IH]; intros y Hy Hn; [lia|].
    rewrite Hrec by assumption.
    destruct (Z.lt_ge_cases y pos) as [Hlt|Hge].
    - rewrite Z.mod_small by lia. rewrite Hframe by lia.
      f_equal. lia.
    - replace (outIndex + y - pos) with (outIndex + (y - pos)) by lia.
      rewrite IH by lia. do 2 f_equal.
      replace y with (y - pos + 1 * pos) at 2 by lia.
      now rewrite Z.mod_add by lia. }
  intros y Hy.
  assert (0 <= y mod pos < pos) by (apply Z.mod_pos_bound; lia).
  apply getitem_lookup_eq; try lia.
  apply (Hind (S (Z.to_nat y))); lia.
Qed.

Lemma copy_repeats_pattern_witness :
  exists out',
    copy 2 2 5 [7; 9; 0; 0; 0; 0; 0; 1] = Ok out' /\
    len out' = len [7; 9; 0; 0; 0; 0; 0; 1] /\
    (forall i, 0 <= i < 2 \/ 2 + 5 <= i < len [7; 9; 0; 0; 0; 0; 0; 1] ->
       getitem out' i = getitem [7; 9; 0; 0; 0; 0; 0; 1] i) /\
    forall y, 0 <= y < 5 ->
      getitem out' (2 + y) = getitem [7; 9; 0; 0; 0; 0; 0; 1] (2 - 2 + (y mod 2)).
Proof.
  apply (copy_repeats_pattern 2 2 5 [7; 9; 0; 0; 0; 0; 0; 1]);
    [lia | lia | unfold len; simpl; lia].
Defined.

(** ** Tokens that fail, tokens that cannot *)

(** On bytes, when decoding gets to a back-reference whose copy would
    end after the declared length ([outIndex + copylen > outLength]),
    nothing is written past the buffer: [UncompressLZ77] raises
    [IndexError]. *)
Theorem backref_past_end_raises inData outLength flags x t
    pos copylen offset' :
  is_bytes inData = true ->
  backref_at inData outLength flags x t pos copylen offset' ->
  outLength < outIndex t + copylen ->
  UncompressLZ77 inData = Raise IndexError.
Proof.
  intros Hb (Hreach & Hg & Hbit & Hr) Hpast.
  pose proof (reaches_inv _ _ _ _ _ Hb Hreach) as (Hlen & Hout & Hoff & _).
  apply (reaches_raise _ _ _ _ _ _ Hreach).
  rewrite (token_backref _ _ _ _ _ _ _ _ _ Hg Hbit Hr).
  apply read_backref_bounds in Hr as (Hpos & Hcl & _); [|assumption|lia].
  destruct (copy (outIndex t) pos copylen (outData t)) as [out'|e|] eqn:Ec;
    cbn [bind].
  - apply copy_Ok in Ec as (_ & Hend & _); lia.
  - now apply copy_raise in Ec as ->.
  - now apply copy_fuel in Ec.
Qed.

Lemma backref_past_end_raises_witness :
  UncompressLZ77 [0x11; 2; 0; 0; 0x40; 0x41; 0x30; 0] = Raise IndexError.
Proof.
  apply (backref_past_end_raises [0x11; 2; 0; 0; 0x40; 0x41; 0x30; 0]
           2 0x40 6 (State 6 1 [0x41; 0]) 1 4 8).
  - reflexivity.
  - split; [|repeat split; reflexivity].
    exists 4, [0; 0]. repeat split; try reflexivity.
    apply while_visits_here; [reflexivity | reflexivity |].
    eapply for_visits_later; [reflexivity|].
    apply for_visits_here.
  - simpl. lia.
Defined.

(** The bytes the token that starts with [first] takes. *)
Lemma read_backref_width inData off pos copylen off' first :
  getitem inData off = Ok first ->
  read_backref inData off = Ok (pos, copylen, off') ->
  off' = off + (if first <? 16 then 3 else if first <? 32 then 4 else 2).
Proof.
  intros H1. unfold read_backref. rewrite H1. cbn [bind].
  destruct (getitem inData (off + 1)) as [second| |]; cbn [bind];
    try discriminate.
  destruct (first <? 32) eqn:E32.
  - destruct (getitem inData (off + 1 + 1)) as [third| |]; cbn [bind];
      try discriminate.
    destruct (16 <=? first) eqn:E16.
    + destruct (getitem inData (off + 1 + 1 + 1)) as [fourth| |];
        cbn [bind]; try discriminate.
      intros H; inversion H; subst.
      destruct (first <? 16) eqn:E; lia.
    + intros H; inversion H; subst.
      destruct (first <? 16) eqn:E; lia.
  - intros H; inversion H; subst.
    destruct (first <? 16) eqn:E; lia.
Qed.

(** On bytes, when decoding gets to a back-reference token and the
    input ends before the last byte of the token (3 bytes when the first
    is below 16, 4 when it is in [16, 32), 2 otherwise),
    [UncompressLZ77] raises [IndexError]. *)
Theorem truncated_token_raises inData outLength flags x t first :
  is_bytes inData = true ->
  reaches inData outLength flags x t ->
  (outLength <=? outIndex t) || (len inData <=? offset t) = false ->
  negb (Z.land flags (Z.shiftl 1 x) =? 0) = true ->
  getitem inData (offset t) = Ok first ->
  len inData
    < offset t + (if first <? 16 then 3 else if first <? 32 then 4 else 2) ->
  UncompressLZ77 inData = Raise IndexError.
Proof.
  intros Hb Hreach Hg Hbit H1 Hshort.
  pose proof (reaches_inv _ _ _ _ _ Hb Hreach) as (_ & _ & Hoff & _).
  apply (reaches_raise _ _ _ _ _ _ Hreach).
  unfold token. rewrite Hg, Hbit.
  destruct (read_backref inData (offset t)) as [[[pos copylen] off']|e|]
    eqn:Er; cbn [bind].
  - pose proof (read_backref_width _ _ _ _ _ _ H1 Er) as Hw.
    apply read_backref_bounds in Er as (_ & _ & Hle); [|assumption|lia].
    lia.
  - now apply read_backref_raise in Er as ->.
  - now apply read_backref_fuel in Er.
Qed.

Lemma truncated_token_raises_witness :
  UncompressLZ77 [0x11; 8; 0; 0; 0x40; 0x41; 0x05; 0x12] = Raise IndexError.
Proof.
  apply (truncated_token_raises [0x11; 8; 0; 0; 0x40; 0x41; 0x05; 0x12]
           8 0x40 6 (State 6 1 [0x41; 0; 0; 0; 0; 0; 0; 0]) 0x05).
  - reflexivity.
  - exists 4, (replicate 8 0). repeat split; try reflexivity.
    apply while_visits_here; [reflexivity | reflexivity |].
    eapply for_visits_later; [reflexivity|].
    apply for_visits_here.
  - reflexivity.
  - reflexivity.
  - reflexivity.
  - reflexivity.
Defined.

(** On bytes, a literal slot that decoding gets to never raises: it
    stores the input byte under the cursor at [outIndex] and moves both
    cursors by one. *)
Theorem literal_slot_stores inData outLength flags x t :
  is_bytes inData = true ->
  reaches inData outLength flags x t ->
  (outLength <=? outIndex t) || (len inData <=? offset t) = false ->
  Z.land flags (Z.shiftl 1 x) = 0 ->
  exists b,
    getitem inData (offset t) = Ok b /\
    token inData (len inData) outLength flags x t
    = Ok (Next (State (offset t + 1) (outIndex t + 1)
                  (<[Z.to_nat (outIndex t) := b]> (outData t)))).
Proof.
  intros Hb Hreach Hg Hbit.
  pose proof (reaches_inv _ _ _ _ _ Hb Hreach) as (Hlen & Hout & Hoff & _).
  pose proof Hg as Hg'. apply orb_false_elim in Hg' as [Hg1 Hg2].
  destruct (getitem_total inData (offset t)) as [b Hget]; [lia|].
  exists b. split; [assumption|].
  unfold token. rewrite Hg, Hbit. cbn [Z.eqb negb]. rewrite Hget. cbn [bind].
  rewrite setitem_in by lia. reflexivity.
Qed.

Lemma literal_slot_stores_witness :
  exists b,
    getitem [0x11; 8; 0; 0; 0x40; 0x41; 0x60; 0] 5 = Ok b /\
    token [0x11; 8; 0; 0; 0x40; 0x41; 0x60; 0] 8 8 0x40 7
      (State 5 0 [0; 0; 0; 0; 0; 0; 0; 0])
    = Ok (Next (State (5 + 1) (0 + 1)
                  (<[Z.to_nat 0 := b]> [0; 0; 0; 0; 0; 0; 0; 0]))).
Proof.
  apply (literal_slot_stores [0x11; 8; 0; 0; 0x40; 0x41; 0x60; 0] 8 0x40 7
           (State 5 0 [0; 0; 0; 0; 0; 0; 0; 0])).
  - reflexivity.
  - exists 4, (replicate 8 0). repeat split; try reflexivity.
    apply while_visits_here; [reflexivity | reflexivity |].
    apply for_visits_here.
  - reflexivity.
  - reflexivity.
Defined.

(** ** Bytes after a complete stream *)

Section complete.
Variables (s more : list Z) (outLength : Z).
Hypothesis stream_bytes : is_bytes s = true.

(** One flag byte's slots on the stream and on the longer stream: the
    same state, unless the short stream stopped for lack of input with
    the output not yet full. *)
Lemma bits_loop_app_full flags xs : forall st st1,
  inv (len s) outLength st ->
  for_each xs (token s (len s) outLength flags) st = Ok st1 ->
  for_each xs (token (s ++ more) (len (s ++ more)) outLength flags) st
    = Ok st1 \/
  (outIndex st1 < outLength /\ len s <= offset st1).
Proof.
  induction xs as [|x xs IH]; intros st st1 Hinv; cbn [for_each]; [auto|].
  destruct (token s (len s) outLength flags x st) as [[st2|st2]| |] eqn:Et;
    cbn [bind]; try discriminate.
  - rewrite (token_app _ more _ _ _ _ _
               (proj1 (proj1 (proj2 (proj2 Hinv)))) Et).
    cbn [bind]. apply IH.
    now apply token_step in Et as (H1 & _).
  - apply token_Break in Et as [-> Hstuck].
    intros H; inversion H; subst st1.
    destruct (outLength <=? outIndex st) eqn:Efull.
    + left. unfold token. rewrite Efull. reflexivity.
    + right. apply andb_false_iff in Hstuck as [Hs|Hs]; lia.
Qed.

Lemma while_loop_app_full fuel : forall st st_s,
  inv (len s) outLength st ->
  while_loop fuel s (len s) outLength st = Ok st_s ->
  outLength <= outIndex st_s ->
  while_loop fuel (s ++ more) (len (s ++ more)) outLength st = Ok st_s.
Proof.
  induction fuel as [|fuel IH]; intros st st_s Hinv; cbn [while_loop];
    destruct ((outIndex st <? outLength) && (offset st <? len s)) eqn:Ec;
    try discriminate.
  - intros H Hfull; inversion H; subst st_s.
    destruct (outIndex st <? outLength) eqn:E; [lia | reflexivity].
  - assert (Ec' : (outIndex st <? outLength)
                  && (offset st <? len (s ++ more)) = true).
    { apply andb_true_iff in Ec as [Ec1 Ec2]. apply andb_true_iff.
      split; [assumption|]. rewrite len_app. apply Z.ltb_lt.
      apply Z.ltb_lt in Ec2. unfold len in *. lia. }
    rewrite Ec'.
    destruct (getitem s (offset st)) as [flags| |] eqn:Ef; cbn [bind];
      try discriminate.
    rewrite (getitem_app s more _ flags
               (proj1 (proj1 (proj2 (proj2 Hinv)))) Ef). cbn [bind].
    case_for_each st1 Es; cbn [bind]; try discriminate.
    intros H Hfull.
    pose proof (inv_after_flag s outLength st Hinv Ec) as Hflag.
    pose proof (bits_loop_step s outLength stream_bytes _ _ _ _ Hflag Es)
      as (Hinv1 & _).
    destruct (bits_loop_app_full _ _ _ _ Hflag Es) as [->|[Hlow Hend]].
    + cbn [bind]. now apply IH.
    + assert (st_s = st1); [|subst; lia].
      destruct fuel; cbn [while_loop] in H;
        destruct ((outIndex st1 <? outLength) && (offset st1 <? len s))
          eqn:E; try congruence;
        apply andb_true_iff in E as [_ E]; lia.
  - intros H Hfull; inversion H; subst st_s.
    destruct (outIndex st <? outLength) eqn:E; [lia | reflexivity].
Qed.
End complete.

(** On bytes with marker 0x11, once a stream decodes to a full output
    ([outIndex = outLength]), whatever bytes follow it are ignored: the
    stream with any bytes appended decodes to the same result. *)
Theorem UncompressLZ77_ignores_trailing s more outLength start st :
  is_bytes s = true ->
  getitem s 0 = Ok 0x11 ->
  GetUncompressedSize s = Ok (outLength, start) ->
  decode s = Ok st ->
  outIndex st = outLength ->
  UncompressLZ77 s = Ok (outData st) /\
  UncompressLZ77 (s ++ more) = Ok (outData st).
Proof.
  intros Hb Hm Hh Hd Hfull.
  destruct (decode_Ok s st Hb Hd)
    as (outLength' & start' & buf & Hh' & Hbuf & Hw & _).
  rewrite Hh in Hh'. inversion Hh'; subst outLength' start'. clear Hh'.
  split.
  { unfold UncompressLZ77. rewrite Hm. cbn [bind].
    change (negb (17 =? 17)) with false. cbv iota. now rewrite Hd. }
  unfold UncompressLZ77.
  rewrite (getitem_app s more 0 17 ltac:(lia) Hm). cbn [bind].
  change (negb (17 =? 17)) with false. cbv iota.
  unfold decode. rewrite (GetUncompressedSize_app s more _ Hh). cbn [bind].
  rewrite Hbuf. cbn [bind].
  rewrite (while_loop_any_fuel _ _ _ (length s) _ _ st); [reflexivity| |].
  - apply (while_loop_app_full s more outLength Hb);
      [now apply (inv_start s outLength start buf) | assumption | lia].
  - apply while_loop_fuel. simpl.
    apply GetUncompressedSize_Ok_len in Hh as [Hs _]. unfold len. lia.
Qed.

Lemma UncompressLZ77_ignores_trailing_witness :
  let s := [0x11; 8; 0; 0; 0x40; 0x41; 0x60; 0] in
  let st := State 8 8 (replicate 8 0x41) in
  UncompressLZ77 s = Ok (outData st) /\
  UncompressLZ77 (s ++ [0xFF; 0xFF; 0xFF; 0xFF]) = Ok (outData st).
Proof.
  cbv zeta.
  apply (UncompressLZ77_ignores_trailing
           [0x11; 8; 0; 0; 0x40; 0x41; 0x60; 0] [0xFF; 0xFF; 0xFF; 0xFF]
           8 4 (State 8 8 (replicate 8 0x41))); reflexivity.
Defined.

(** ** Streams without tokens *)

(** A declared length of zero (bytes 1-7 all zero) gives the empty
    output, whatever follows the header. *)
Theorem UncompressLZ77_zero_length (rest : list Z) :
  UncompressLZ77 (0x11 :: 0 :: 0 :: 0 :: 0 :: 0 :: 0 :: 0 :: rest) = Ok [].
Proof.
  unfold UncompressLZ77.
  rewrite (getitem_in _ 0 0x11) by (reflexivity || lia). cbn [bind].
  change (negb (17 =? 17)) with false. cbv iota.
  unfold decode.
  rewrite GetUncompressedSize_field32. cbn [bind].
  change (bytearray _) with (Ok (@nil Z)). cbn [bind].
  now rewrite while_loop_stop.
Qed.

(** A stream that ends with its 4-byte header decodes to [L] zero
    bytes, [L] being the length declared. *)
Theorem UncompressLZ77_header_only (L : Z) :
  0 < L < 2 ^ 24 ->
  UncompressLZ77 (0x11 :: le_bytes 3 L)
  = Ok (replicate (Z.to_nat L) 0).
Proof.
  intros HL. unfold UncompressLZ77.
  rewrite (getitem_in _ 0 0x11) by (reflexivity || lia). cbn [bind].
  change (negb (17 =? 17)) with false. cbv iota.
  unfold decode.
  cbn [le_bytes].
  rewrite GetUncompressedSize_field24; rewrite le_bytes_3_value by lia;
    [|lia].
  cbn [bind].
  unfold bytearray. destruct (L <? 0) eqn:E; [lia|]. cbn [bind].
  rewrite while_loop_stop; [reflexivity|].
  apply andb_false_iff. right. reflexivity.
Qed.

Lemma UncompressLZ77_header_only_witness :
  UncompressLZ77 (0x11 :: le_bytes 3 5) = Ok (replicate (Z.to_nat 5) 0).
Proof. apply UncompressLZ77_header_only. lia. Defined.

(** ** Streams of literals *)

Lemma len_cons b (l : list Z) : len (b :: l) = len l + 1.
Proof. unfold len. simpl. lia. Qed.

Lemma getitem_middle (pre post : list Z) b :
  getitem (pre ++ b :: post) (len pre) = Ok b.
Proof.
  apply getitem_in; [unfold len; lia|].
  unfold len. rewrite Nat2Z.id. now apply list_lookup_middle.
Qed.

Lemma setitem_middle (done rest : list Z) p b :
  setitem (done ++ p :: rest) (len done) b = Ok (done ++ b :: rest).
Proof.
  rewrite setitem_in.
  - unfold len. rewrite Nat2Z.id.
    rewrite <- (Nat.add_0_r (length done)). now rewrite insert_app_r.
  - rewrite len_app, len_cons. unfold len. lia.
Qed.

(** A flag byte below [2^k] has its bits [k] and above clear. *)
Lemma flag_bit_clear flags k x :
  0 <= flags < 2 ^ k -> 0 <= k <= x -> Z.land flags (Z.shiftl 1 x) = 0.
Proof.
  intros Hf Hk. rewrite Z.shiftl_1_l.
  apply Z.bits_inj'. intros n Hn. rewrite Z.land_spec, Z.bits_0.
  rewrite Z.pow2_bits_eqb by lia.
  destruct (Z.eqb_spec x n) as [->|Hne]; [|apply andb_false_r].
  rewrite andb_true_r.
  rewrite <- (Z.mod_small flags (2 ^ k)) by assumption.
  apply Z.mod_pow2_bits_high. lia.
Qed.

(** The slots of one flag byte that holds literals: the literals are
    stored one after the other, and the loop stops after them when the
    bits, the output or the input are used up. *)
Lemma bits_literals inData outLength flags : forall lits xs pre post done padl padr,
  inData = pre ++ lits ++ post ->
  length padl = length lits ->
  len (done ++ padl ++ padr) = outLength ->
  (length lits <= length xs)%nat ->
  (forall x, x ∈ take (length lits) xs -> Z.land flags (Z.shiftl 1 x) = 0) ->
  length xs = length lits \/ padr = [] \/ post = [] ->
  for_each xs (token inData (len inData) outLength flags)
    (State (len pre) (len done) (done ++ padl ++ padr))
  = Ok (State (len pre + len lits) (len done + len lits)
          (done ++ lits ++ padr)).
Proof.
  induction lits as [|b lits IH];
    intros xs pre post done padl padr Hin Hpad Hout Hxs Hbits Hstop.
  - destruct padl; [|discriminate]. change (len []) with 0.
    rewrite !Z.add_0_r. destruct xs as [|x xs]; [reflexivity|].
    cbn [for_each]. unfold token. cbn [offset outIndex outData].
    assert (Hg : (outLength <=? len done) || (len inData <=? len pre) = true).
    { apply orb_true_iff. destruct Hstop as [H|[->| ->]]; [discriminate| |].
      - left. subst outLength. cbn [app]. rewrite app_nil_r. lia.
      - right. subst inData. cbn [app]. rewrite app_nil_r. lia. }
    now rewrite Hg.
  - destruct padl as [|p padl]; [discriminate|].
    destruct xs as [|x xs]; [simpl in Hxs; lia|].
    cbn [for_each]. unfold token at 1. cbn [offset outIndex outData].
    assert (Hg : (outLength <=? len done) || (len inData <=? len pre) = false).
    { apply orb_false_intro; apply Z.leb_gt.
      - subst outLength. rewrite len_app. cbn [app]. rewrite len_cons.
        unfold len. lia.
      - subst inData. rewrite len_app. cbn [app]. rewrite len_cons.
        unfold len. lia. }
    rewrite Hg.
    rewrite (Hbits x) by (cbn [length take]; apply list_elem_of_here).
    cbn [Z.eqb negb].
    rewrite Hin at 1. cbn [app]. rewrite getitem_middle. cbn [bind].
    rewrite setitem_middle. cbn [bind].
    replace (len pre + 1) with (len (pre ++ [b]))
      by (rewrite len_app; reflexivity).
    replace (len done + 1) with (len (done ++ [b]))
      by (rewrite len_app; reflexivity).
    replace (done ++ b :: padl ++ padr) with ((done ++ [b]) ++ padl ++ padr)
      by (now rewrite <- app_assoc).
    rewrite (IH xs (pre ++ [b]) post (done ++ [b]) padl padr).
    + rewrite !len_app, !len_cons. change (len []) with 0.
      rewrite <- app_assoc. cbn [app]. f_equal. f_equal; lia.
    + rewrite Hin. now rewrite <- app_assoc.
    + simpl in Hpad. lia.
    + rewrite <- Hout. unfold len. rewrite !length_app. simpl.
      rewrite ?length_app. lia.
    + simpl in Hxs. lia.
    + intros y Hy. apply Hbits. cbn [length take]. now apply list_elem_of_further.
    + destruct Hstop as [H|H]; [left; simpl in H; lia | right; assumption].
Qed.

Lemma take_bits_high (n : nat) x :
  x ∈ take n (rev (range 8)) -> 8 - Z.of_nat n <= x.
Proof.
  change (rev (range 8)) with [7; 6; 5; 4; 3; 2; 1; 0].
  do 8 (destruct n as [|n];
        [cbn [take]; intros H;
         repeat (apply elem_of_cons in H as [->|H]; [lia|]);
         now apply elem_of_nil in H|]).
  cbn [take]. intros H.
  repeat (apply elem_of_cons in H as [->|H]; [lia|]).
  rewrite take_nil in H. now apply elem_of_nil in H.
Qed.

(** The [while] loop on groups of eight literals under a zero flag
    byte, followed by a last group of one to eight literals. *)
Lemma literal_groups_loop inData outLength flags last :
  forall groups fuel pre done,
  Forall (fun g : list Z => length g = 8%nat) groups ->
  (1 <= length last <= 8)%nat ->
  0 <= flags < 2 ^ (8 - Z.of_nat (length last)) ->
  inData = pre ++ concat (map (cons 0) groups) ++ flags :: last ->
  outLength = len done + len (concat groups ++ last) ->
  (length groups < fuel)%nat ->
  while_loop fuel inData (len inData) outLength
    (State (len pre) (len done)
       (done ++ replicate (length (concat groups ++ last)) 0))
  = Ok (State (len inData) outLength (done ++ concat groups ++ last)).
Proof.
  induction groups as [|g groups IH];
    intros fuel pre done Hall Hlast Hflags Hin Hout Hfuel;
    (destruct fuel as [|fuel]; [simpl in Hfuel; lia|]);
    cbn [while_loop offset outIndex outData].
  - cbn [concat map app] in *.
    assert (Hc : (len done <? outLength) && (len pre <? len inData) = true).
    { apply andb_true_iff. split; apply Z.ltb_lt.
      - unfold len in *. lia.
      - subst inData. rewrite len_app, len_cons. unfold len. lia. }
    rewrite Hc. rewrite Hin at 1. rewrite getitem_middle. cbn [bind].
    replace (len pre + 1) with (len (pre ++ [flags]))
      by (rewrite len_app; reflexivity).
    replace (done ++ replicate (length last) 0)
      with (done ++ replicate (length last) 0 ++ [])
      by (now rewrite app_nil_r).
    rewrite (bits_literals inData outLength flags last (rev (range 8))
               (pre ++ [flags]) [] done (replicate (length last) 0) []).
    + cbn [bind]. rewrite while_loop_stop.
      * rewrite app_nil_r. f_equal. f_equal; [|lia].
        subst inData. rewrite !len_app, !len_cons. change (len []) with 0. lia.
      * cbn [outIndex offset]. apply andb_false_iff. left.
        apply Z.ltb_ge. lia.
    + rewrite Hin. rewrite app_nil_r, <- app_assoc. reflexivity.
    + apply length_replicate.
    + rewrite app_nil_r, len_app. unfold len in *.
      rewrite length_replicate. lia.
    + change (length (rev (range 8))) with 8%nat. lia.
    + intros x Hx. apply take_bits_high in Hx.
      apply (flag_bit_clear flags (8 - Z.of_nat (length last))); lia.
    + right. left. reflexivity.
  - apply Forall_cons in Hall as [Hg Hall].
    cbn [concat map] in *.
    rewrite <- !app_assoc in *. cbn [app] in Hin.
    assert (Hc : (len done <? outLength) && (len pre <? len inData) = true).
    { apply andb_true_iff. split; apply Z.ltb_lt.
      - subst outLength. rewrite len_app. unfold len. lia.
      - subst inData. rewrite len_app, len_cons. unfold len. lia. }
    rewrite Hc. rewrite Hin at 1. rewrite getitem_middle. cbn [bind].
    replace (len pre + 1) with (len (pre ++ [0]))
      by (rewrite len_app; reflexivity).
    rewrite length_app, Hg, replicate_add.
    rewrite (bits_literals inData outLength 0 g (rev (range 8))
               (pre ++ [0])
               (concat (map (cons 0) groups) ++ flags :: last) done
               (replicate 8 0)
               (replicate (length (concat groups ++ last)) 0)).
    + cbn [bind].
      replace (len (pre ++ [0]) + len g) with (len (pre ++ 0 :: g))
        by (rewrite !len_app, !len_cons; change (len []) with 0; lia).
      replace (len done + len g) with (len (done ++ g))
        by (now rewrite len_app).
      rewrite (app_assoc done g).
      rewrite (IH fuel (pre ++ 0 :: g) (done ++ g)); try assumption.
      * now rewrite <- app_assoc.
      * rewrite Hin. rewrite <- app_assoc. reflexivity.
      * rewrite Hout. rewrite !len_app. lia.
      * simpl in Hfuel. lia.
    + rewrite Hin. rewrite <- app_assoc. reflexivity.
    + rewrite length_replicate. now rewrite Hg.
    + rewrite Hout. unfold len. rewrite !length_app, !length_replicate.
      rewrite Hg. lia.
    + change (length (rev (range 8))) with 8%nat. lia.
    + intros x _. apply Z.land_0_l.
    + left. now rewrite Hg.
Qed.

(** Literal-only round trip. A stream made of the 4-byte header for
    [L] bytes, groups of a zero flag byte and eight literal bytes, and a
    last group of a flag byte and one to eight literal bytes, this flag
    byte having a clear bit for each literal, decodes to the literals in
    order. *)
Theorem UncompressLZ77_literals (groups : list (list Z)) (flags : Z)
    (last : list Z) :
  is_bytes (concat groups ++ last) = true ->
  Forall (fun g : list Z => length g = 8%nat) groups ->
  (1 <= length last <= 8)%nat ->
  0 <= flags < 2 ^ (8 - Z.of_nat (length last)) ->
  len (concat groups ++ last) < 2 ^ 24 ->
  UncompressLZ77
    (0x11 :: le_bytes 3 (len (concat groups ++ last))
       ++ concat (map (cons 0) groups) ++ flags :: last)
  = Ok (concat groups ++ last).
Proof.
  intros _ Hall Hlast Hflags Hsmall.
  set (data := concat groups ++ last) in *.
  set (body := concat (map (cons 0) groups) ++ flags :: last).
  assert (Hpos : 0 < len data).
  { unfold data, len. rewrite length_app. lia. }
  unfold UncompressLZ77.
  rewrite (getitem_in _ 0 0x11) by (reflexivity || lia). cbn [bind].
  change (negb (17 =? 17)) with false. cbv iota.
  unfold decode. cbn [le_bytes app].
  rewrite GetUncompressedSize_field24; rewrite le_bytes_3_value by lia;
    [|lia].
  cbn [bind].
  unfold bytearray. destruct (len data <? 0) eqn:E; [lia|]. cbn [bind].
  assert (Hrun : while_loop (S (length groups))
                   (0x11 :: le_bytes 3 (len data) ++ body)
                   (len (0x11 :: le_bytes 3 (len data) ++ body)) (len data)
                   (State 4 0 (replicate (Z.to_nat (len data)) 0))
                 = Ok (State (len (0x11 :: le_bytes 3 (len data) ++ body))
                         (len data) data)).
  { replace (Z.to_nat (len data)) with (length data)
      by (unfold len; now rewrite Nat2Z.id).
    apply (literal_groups_loop _ (len data) flags last groups
             (S (length groups)) (0x11 :: le_bytes 3 (len data)) []);
      try assumption; try reflexivity; lia. }
  rewrite (while_loop_any_fuel _ _ _ _ _ _ _ Hrun); [reflexivity|].
  apply while_loop_fuel. cbn [offset]. unfold len. simpl. lia.
Qed.

Lemma UncompressLZ77_literals_witness :
  UncompressLZ77
    (0x11 :: le_bytes 3 (len (concat [[1; 2; 3; 4; 5; 6; 7; 8]] ++ [9; 10]))
       ++ concat (map (cons 0) [[1; 2; 3; 4; 5; 6; 7; 8]]) ++ 0x3F :: [9; 10])
  = Ok (concat [[1; 2; 3; 4; 5; 6; 7; 8]] ++ [9; 10]).
Proof.
  apply (UncompressLZ77_literals [[1; 2; 3; 4; 5; 6; 7; 8]] 0x3F [9; 10]).
  - reflexivity.
  - repeat constructor.
  - simpl. lia.
  - simpl. lia.
  - unfold len. simpl. lia.
Defined.

(** * [decompress_file] *)

(** Whatever the file system does, [decompress_file] returns [True] or
    [False]: no exception of reading, decoding or writing leaves it, and
    the decoding it runs terminates. *)
Theorem decompress_file_returns {W : Type} (sys : os W) input_path
    output_path (w : W) :
  exists w' b, decompress_file sys input_path output_path w = (w', Returned b).
Proof.
  unfold decompress_file, decompress_file_try.
  destruct (read_file sys input_path w) as [w1 [data|e]];
    [|destruct e; eauto].
  assert (Hfuel : UncompressLZ77 data <> OutOfFuel).
  { unfold UncompressLZ77. pose proof (getitem_fuel data 0).
    destruct (getitem data 0) as [marker| |]; cbn [bind]; try congruence.
    destruct (negb (marker =? 17)); [discriminate|].
    pose proof (decode_fuel data).
    destruct (decode data); cbn [bind]; congruence. }
  destruct (UncompressLZ77 data) as [out|e|]; [|eauto|congruence].
  destruct (write_file sys _ out w1) as [w2 [u|e]]; [eauto|].
  destruct e; eauto.
Qed.

(** [decompress_file] returns [True] only when the file was read, the
    decoder returned, and the result was written, to the path given or
    else to the input path without its suffix when that suffix, lowered,
    is [.lz], or with [.dec] added otherwise; the world is then the one
    the write left. *)
Theorem decompress_file_true {W : Type} (sys : os W) input_path
    output_path (w w' : W) :
  decompress_file sys input_path output_path w = (w', Returned true) ->
  exists data out w1,
    read_file sys input_path w = (w1, inl data) /\
    UncompressLZ77 data = Ok out /\
    write_file sys
      (match output_path with
       | None => if String.eqb (lower sys (suffix sys input_path)) ".lz"
                 then strip_suffix sys input_path
                 else String.append input_path ".dec"
       | Some p => p
       end) out w1 = (w', inl tt).
Proof.
  unfold decompress_file, decompress_file_try, default_output_path.
  destruct (read_file sys input_path w) as [w1 [data|e]] eqn:Er;
    [|destruct e; discriminate].
  destruct (UncompressLZ77 data) as [out|e|] eqn:Ed; try discriminate.
  destruct (write_file sys _ out w1) as [w2 [[]|e]] eqn:Ew;
    [|destruct e; discriminate].
  intros H; inversion H; subst. exists data, out, w1. auto.
Qed.

(** When the file cannot be read, or is read and the decoder raises,
    [decompress_file] returns [False] without writing: the world is the
    one the read left. *)
Theorem decompress_file_failure {W : Type} (sys : os W) input_path
    output_path (w w1 : W) r :
  read_file sys input_path w = (w1, r) ->
  match r with
  | inr _ => True
  | inl data => exists e, UncompressLZ77 data = Raise e
  end ->
  decompress_file sys input_path output_path w = (w1, Returned false).
Proof.
  intros Hr Hfail. unfold decompress_file, decompress_file_try. rewrite Hr.
  destruct r as [data|e]; [|destruct e; reflexivity].
  destruct Hfail as [e He]. now rewrite He.
Qed.

Lemma decompress_file_failure_witness :
  decompress_file mem_os "a.lz" (Some "a"%string)
    [("a.lz"%string, [0x11; 8; 0; 0; 0x40; 0x41; 0x60])]
  = ([("a.lz"%string, [0x11; 8; 0; 0; 0x40; 0x41; 0x60])], Returned false).
Proof.
  apply (decompress_file_failure mem_os "a.lz" (Some "a"%string) _ _
           (inl [0x11; 8; 0; 0; 0x40; 0x41; 0x60])).
  - reflexivity.
  - exists IndexError. reflexivity.
Defined.

(** A file whose first byte is not 0x11 is copied as it is: when
    [decompress_file] returns [True] on it, with an output path given or
    not, the bytes read are the bytes that were written to the output
    path, and the world is the one that write left. *)
Theorem decompress_file_copies {W : Type} (sys : os W) input_path
    output_path (w w1 w' : W) marker rest :
  read_file sys input_path w = (w1, inl (marker :: rest)) ->
  marker <> 0x11 ->
  decompress_file sys input_path output_path w = (w', Returned true) ->
  write_file sys
    (match output_path with
     | None => if String.eqb (lower sys (suffix sys input_path)) ".lz"
               then strip_suffix sys input_path
               else String.append input_path ".dec"
     | Some p => p
     end) (marker :: rest) w1 = (w', inl tt).
Proof.
  intros Hr Hm. unfold decompress_file, decompress_file_try,
    default_output_path. rewrite Hr.
  assert (Hpass : UncompressLZ77 (marker :: rest) = Ok (marker :: rest)).
  { unfold UncompressLZ77.
    rewrite (getitem_in _ 0 marker) by (reflexivity || lia). cbn [bind].
    destruct (marker =? 17) eqn:E; [lia | reflexivity]. }
  rewrite Hpass.
  destruct (write_file sys _ (marker :: rest) w1) as [w2 [[]|e]];
    [|destruct e; discriminate].
  intros H; inversion H; subst. reflexivity.
Qed.

Lemma decompress_file_copies_witness :
  write_file mem_os "raw.out" [0x10; 1; 2] [("raw"%string, [0x10; 1; 2])]
  = ([("raw.out"%string, [0x10; 1; 2]); ("raw"%string, [0x10; 1; 2])],
     inl tt) /\
  write_file mem_os "raw.dec" [0x10; 1; 2] [("raw"%string, [0x10; 1; 2])]
  = ([("raw.dec"%string, [0x10; 1; 2]); ("raw"%string, [0x10; 1; 2])],
     inl tt) /\
  write_file mem_os_lz "r" [0x10; 1; 2] [("r.LZ"%string, [0x10; 1; 2])]
  = ([("r"%string, [0x10; 1; 2]); ("r.LZ"%string, [0x10; 1; 2])],
     inl tt).
Proof.
  split; [|split].
  - apply (decompress_file_copies mem_os "raw" (Some "raw.out"%string)
             [("raw"%string, [0x10; 1; 2])] _ _ 0x10 [1; 2]);
      [reflexivity | lia | reflexivity].
  - apply (decompress_file_copies mem_os "raw" None
             [("raw"%string, [0x10; 1; 2])] _ _ 0x10 [1; 2]);
      [reflexivity | lia | reflexivity].
  - apply (decompress_file_copies mem_os_lz "r.LZ" None
             [("r.LZ"%string, [0x10; 1; 2])] _ _ 0x10 [1; 2]);
      [reflexivity | lia | reflexivity].
Defined.

Lemma decompress_file_true_witness :
  (exists data out w1,
     read_file mem_os "raw" [("raw"%string, [0x10; 1; 2])] = (w1, inl data) /\
     UncompressLZ77 data = Ok out /\
     write_file mem_os "raw.dec" out w1
     = ([("raw.dec"%string, [0x10; 1; 2]); ("raw"%string, [0x10; 1; 2])],
        inl tt)) /\
  (exists data out w1,
     read_file mem_os_lz "a.LZ" [("a.LZ"%string, [0x11; 1; 0; 0; 0; 7])]
     = (w1, inl data) /\
     UncompressLZ77 data = Ok out /\
     write_file mem_os_lz "a" out w1
     = ([("a"%string, [7]); ("a.LZ"%string, [0x11; 1; 0; 0; 0; 7])],
        inl tt)) /\
  (exists data out w1,
     read_file mem_os_lz "a.LZ" [("a.LZ"%string, [0x11; 1; 0; 0; 0; 7])]
     = (w1, inl data) /\
     UncompressLZ77 data = Ok out /\
     write_file mem_os_lz "b" out w1
     = ([("b"%string, [7]); ("a.LZ"%string, [0x11; 1; 0; 0; 0; 7])],
        inl tt)).
Proof.
  split; [|split].
  - apply (decompress_file_true mem_os "raw" None
             [("raw"%string, [0x10; 1; 2])]). reflexivity.
  - apply (decompress_file_true mem_os_lz "a.LZ" None
             [("a.LZ"%string, [0x11; 1; 0; 0; 0; 7])]). reflexivity.
  - apply (decompress_file_true mem_os_lz "a.LZ" (Some "b"%string)
             [("a.LZ"%string, [0x11; 1; 0; 0; 0; 7])]). reflexivity.
Defined.

(** * The token section under either header *)

Lemma getitem_app_r (pre body : list Z) k :
  0 <= k -> getitem (pre ++ body) (len pre + k) = getitem body k.
Proof.
  intros Hk. unfold getitem. rewrite len_app.
  destruct (Z.lt_ge_cases k (len body)) as [Hlt|Hge].
  - rewrite !py_index_in by (unfold len in *; lia). cbn [bind].
    rewrite lookup_app_r by (unfold len; lia).
    replace (Z.to_nat (len pre + k) - length pre)%nat with (Z.to_nat k)
      by (unfold len; lia).
    reflexivity.
  - rewrite !py_index_out by (unfold len in *; lia). reflexivity.
Qed.

Lemma read_backref_app_r (pre body : list Z) k :
  0 <= k ->
  read_backref (pre ++ body) (len pre + k)
  = on_result (fun r => let '(pos, copylen, off') := r in
                        (pos, copylen, off' + len pre))
      (read_backref body k).
Proof.
  intros Hk. unfold read_backref.
  rewrite getitem_app_r by lia.
  destruct (getitem body k) as [first| |]; cbn [bind on_result];
    try reflexivity.
  replace (len pre + k + 1) with (len pre + (k + 1)) by lia.
  rewrite getitem_app_r by lia.
  destruct (getitem body (k + 1)) as [second| |]; cbn [bind on_result];
    try reflexivity.
  destruct (first <? 32).
  - replace (len pre + (k + 1) + 1) with (len pre + (k + 1 + 1)) by lia.
    rewrite getitem_app_r by lia.
    destruct (getitem body (k + 1 + 1)) as [third| |]; cbn [bind on_result];
      try reflexivity.
    destruct (16 <=? first).
    + replace (len pre + (k + 1 + 1) + 1) with (len pre + (k + 1 + 1 + 1))
        by lia.
      rewrite getitem_app_r by lia.
      destruct (getitem body (k + 1 + 1 + 1)) as [fourth| |];
        cbn [bind on_result]; try reflexivity.
      do 2 f_equal. lia.
    + cbn [on_result]. do 2 f_equal. lia.
  - cbn [on_result]. do 2 f_equal. lia.
Qed.

Lemma token_app_r (pre body : list Z) outLength flags x st :
  0 <= offset st ->
  token (pre ++ body) (len (pre ++ body)) outLength flags x
    (shift (len pre) st)
  = on_result (shift_flow (len pre))
      (token body (len body) outLength flags x st).
Proof.
  intros Ho. unfold token. cbn [shift offset outIndex outData].
  replace (len (pre ++ body) <=? offset st + len pre)
    with (len body <=? offset st)
    by (rewrite len_app; destruct (len body <=? offset st) eqn:E;
        symmetry; [apply Z.leb_le | apply Z.leb_gt]; lia).
  destruct ((outLength <=? outIndex st) || (len body <=? offset st));
    [reflexivity|].
  replace (offset st + len pre) with (len pre + offset st) by lia.
  destruct (negb (Z.land flags (Z.shiftl 1 x) =? 0)).
  - rewrite read_backref_app_r by assumption.
    destruct (read_backref body (offset st)) as [[[pos copylen] off']| |];
      cbn [bind on_result]; try reflexivity.
    destruct (copy (outIndex st) pos copylen (outData st));
      cbn [bind on_result]; reflexivity.
  - rewrite getitem_app_r by assumption.
    destruct (getitem body (offset st)) as [b| |]; cbn [bind on_result];
      try reflexivity.
    destruct (setitem (outData st) (outIndex st) b); cbn [bind on_result];
      try reflexivity.
    unfold shift_flow, shift. cbn [offset outIndex outData].
    do 3 f_equal. lia.
Qed.

Lemma bits_loop_app_r (pre body : list Z) outLength flags xs : forall st,
  0 <= offset st ->
  for_each xs (token (pre ++ body) (len (pre ++ body)) outLength flags)
    (shift (len pre) st)
  = on_result (shift (len pre))
      (for_each xs (token body (len body) outLength flags) st).
Proof.
  induction xs as [|x xs IH]; intros st Ho; cbn [for_each]; [reflexivity|].
  rewrite token_app_r by assumption.
  destruct (token body (len body) outLength flags x st) as [[st1|st1]| |]
    eqn:Et; cbn [bind on_result shift_flow]; try reflexivity.
  apply IH. apply token_offset in Et. simpl in Et. lia.
Qed.

Lemma while_loop_app_r (pre body : list Z) outLength fuel : forall st,
  0 <= offset st ->
  while_loop fuel (pre ++ body) (len (pre ++ body)) outLength
    (shift (len pre) st)
  = on_result (shift (len pre))
      (while_loop fuel body (len body) outLength st).
Proof.
  induction fuel as [|fuel IH]; intros st Ho; cbn [while_loop];
    cbn [shift offset outIndex outData];
    replace (offset st + len pre <? len (pre ++ body))
      with (offset st <? len body)
      by (rewrite len_app; destruct (offset st <? len body) eqn:E;
          symmetry; [apply Z.ltb_lt | apply Z.ltb_ge]; lia);
    destruct ((outIndex st <? outLength) && (offset st <? len body));
    try reflexivity.
  replace (offset st + len pre) with (len pre + offset st) by lia.
  rewrite getitem_app_r by assumption.
  destruct (getitem body (offset st)) as [flags| |]; cbn [bind on_result];
    try reflexivity.
  replace (State (len pre + offset st + 1) (outIndex st) (outData st))
    with (shift (len pre) (State (offset st + 1) (outIndex st) (outData st)))
    by (unfold shift; cbn [offset outIndex outData]; f_equal; lia).
  rewrite bits_loop_app_r by (simpl; lia).
  case_for_each st1 Es; cbn [bind on_result]; try reflexivity.
  apply IH. apply bits_loop_offset in Es. simpl in Es. lia.
Qed.

(** Two amounts of fuel that do not run out give the same result. *)
Lemma while_loop_fuel_indep inData inLength outLength fuel :
  forall fuel' st,
  while_loop fuel inData inLength outLength st <> OutOfFuel ->
  while_loop fuel' inData inLength outLength st <> OutOfFuel ->
  while_loop fuel inData inLength outLength st
  = while_loop fuel' inData inLength outLength st.
Proof.
  induction fuel as [|fuel IH]; intros fuel' st;
    destruct fuel' as [|fuel']; cbn [while_loop];
    destruct ((outIndex st <? outLength) && (offset st <? inLength));
    try congruence.
  destruct (getitem inData (offset st)) as [flags| |]; cbn [bind];
    try reflexivity.
  case_for_each st1 Ef; cbn [bind]; try reflexivity.
  apply IH.
Qed.

(** The same token section decodes to the same result, or raises the
    same exception, behind the 4-byte header and behind the 8-byte header
    for the same length. *)
Theorem UncompressLZ77_either_header (L : Z) (body : list Z) :
  0 < L < 2 ^ 24 ->
  UncompressLZ77 (0x11 :: le_bytes 3 L ++ body)
  = UncompressLZ77 (0x11 :: 0 :: 0 :: 0 :: le_bytes 4 L ++ body).
Proof.
  intros HL. unfold UncompressLZ77.
  rewrite !(getitem_in _ 0 0x11) by (reflexivity || lia). cbn [bind].
  change (negb (17 =? 17)) with false. cbv iota.
  unfold decode. cbn [le_bytes app].
  rewrite GetUncompressedSize_field24; rewrite le_bytes_3_value by lia;
    [|lia].
  rewrite GetUncompressedSize_field32, le_bytes_4_value by lia.
  cbn [bind]. unfold bytearray. destruct (L <? 0) eqn:E; [lia|]. cbn [bind].
  set (buf := replicate (Z.to_nat L) 0).
  set (h4 := [17; L mod 256; (L / 256) mod 256; (L / 256 / 256) mod 256]).
  set (h8 := [17; 0; 0; 0; L mod 256; (L / 256) mod 256;
              (L / 256 / 256) mod 256; (L / 256 / 256 / 256) mod 256]).
  change (17 :: L mod 256 :: (L / 256) mod 256 :: (L / 256 / 256) mod 256
            :: body) with (h4 ++ body).
  change (17 :: 0 :: 0 :: 0 :: L mod 256 :: (L / 256) mod 256
            :: (L / 256 / 256) mod 256 :: (L / 256 / 256 / 256) mod 256
            :: body) with (h8 ++ body).
  change (State 4 0 buf) with (shift (len h4) (State 0 0 buf)).
  change (State 8 0 buf) with (shift (len h8) (State 0 0 buf)).
  rewrite !while_loop_app_r by (simpl; lia).
  rewrite (while_loop_fuel_indep body (len body) L (length (h4 ++ body))
             (length (h8 ++ body))).
  - destruct (while_loop _ _ _ _ _); reflexivity.
  - apply while_loop_fuel. rewrite length_app. unfold len. simpl. lia.
  - apply while_loop_fuel. rewrite length_app. unfold len. simpl. lia.
Qed.

Lemma UncompressLZ77_either_header_witness :
  UncompressLZ77 (0x11 :: le_bytes 3 8 ++ [0x40; 0x41; 0x60; 0])
  = UncompressLZ77 (0x11 :: 0 :: 0 :: 0 :: le_bytes 4 8 ++ [0x40; 0x41; 0x60; 0]).
Proof. apply UncompressLZ77_either_header. lia. Defined.

Lemma decode_cut_at_slot_witness :
  let full := [0x11; 8; 0; 0; 0x40; 0x41; 0x60; 0] in
  let t := State 6 1 [0x41; 0; 0; 0; 0; 0; 0; 0] in
  decode (take (Z.to_nat (offset t)) full) = Ok t.
Proof.
  cbv zeta.
  apply (decode_cut_at_slot [0x11; 8; 0; 0; 0x40; 0x41; 0x60; 0] 8 0x40 6
           (State 6 1 [0x41; 0; 0; 0; 0; 0; 0; 0])).
  - reflexivity.
  - exists 4, (replicate 8 0). repeat split; try reflexivity.
    apply while_visits_here; [reflexivity | reflexivity |].
    eapply for_visits_later; [reflexivity|].
    apply for_visits_here.
Defined.

(** * Streams that end between two tokens *)

Lemma is_bytes_app (l t : list Z) :
  is_bytes l = true -> is_bytes t = true -> is_bytes (l ++ t) = true.
Proof.
  unfold is_bytes. rewrite forallb_app. intros -> ->. reflexivity.
Qed.

Lemma is_bytes_take_drop (n : nat) (l : list Z) :
  is_bytes l = true ->
  is_bytes (take n l) = true /\ is_bytes (drop n l) = true.
Proof.
  intros H. rewrite <- (take_drop n l) in H. unfold is_bytes in *.
  rewrite forallb_app in H. now apply andb_true_iff in H.
Qed.

Lemma while_heads_inv inData outLength fuel st t :
  is_bytes inData = true ->
  inv (len inData) outLength st ->
  while_heads inData (len inData) outLength fuel st t ->
  inv (len inData) outLength t /\ offset st <= offset t.
Proof.
  intros Hb Hinv Hh.
  induction Hh as [fuel st|fuel st flags st' t Hc Hf Hs Hh IH].
  - split; [assumption | lia].
  - apply bits_loop_step in Hs as (Hinv1 & _ & Ho1);
      [|assumption|now apply inv_after_flag].
    destruct (IH Hinv1) as [Ht Hot]. split; [assumption|].
    simpl in Ho1. lia.
Qed.

(** A stream cut where its [while] loop is about to test its condition:
    the loop on the cut stream stops there. *)
Lemma while_heads_cut full outLength n fuel st t :
  0 <= n <= len full ->
  0 <= offset st ->
  while_heads full (len full) outLength fuel st t ->
  offset t = n ->
  while_loop fuel (take (Z.to_nat n) full) n outLength st = Ok t.
Proof.
  intros Hn Ho Hh Ht.
  induction Hh as [fuel st|fuel st flags st' t Hc Hf Hs Hh IH].
  - apply while_loop_stop. apply andb_false_iff. right. lia.
  - assert (Hmono : offset st' <= offset t).
    { clear -Hh. induction Hh as [|fuel st flags st' t Hc Hf Hs Hh IH];
        [lia|]. apply bits_loop_offset in Hs. simpl in Hs. lia. }
    pose proof (bits_loop_offset _ _ _ _ _ _ _ Hs) as Hmono1.
    simpl in Hmono1. cbn [while_loop].
    apply andb_true_iff in Hc as [Hc1 Hc2]. rewrite Hc1. cbn [andb].
    destruct (offset st <? n) eqn:En; [|lia].
    rewrite (getitem_cut full n _ flags) by (lia || assumption). cbn [bind].
    assert (Ho' : 0 <= offset (State (offset st + 1) (outIndex st)
                                 (outData st))) by (simpl; lia).
    rewrite (bits_loop_cut full outLength n Hn _ _ _ _ Ho' Hs) by lia.
    cbn [bind]. apply IH; [lia | assumption].
Qed.

(** A stream of bytes cut between two tokens decodes, raising nothing,
    to the cursor and buffer the longer decoding had at the cut. *)
Lemma between_tokens_cut full outLength t :
  is_bytes full = true ->
  between_tokens full outLength t ->
  0 <= offset t <= len full /\
  getitem (take (Z.to_nat (offset t)) full) 0 = Ok 0x11 /\
  (exists start,
     GetUncompressedSize (take (Z.to_nat (offset t)) full)
     = Ok (outLength, start)) /\
  decode (take (Z.to_nat (offset t)) full) = Ok t.
Proof.
  intros Hb (start & buf & Hm & Hh & Hbuf & Hreach).
  pose proof (inv_start full outLength start buf Hh Hbuf) as Hinv0.
  pose proof (GetUncompressedSize_Ok_len _ _ _ Hh) as [Hs _].
  assert (Hoff : 0 <= offset t <= len full /\ start <= offset t).
  { destruct Hreach as [Hheads|(flags & x & Hv)].
    - apply (while_heads_inv _ _ _ _ _ Hb Hinv0) in Hheads
        as ((_ & _ & Hoff & _) & Hle). simpl in Hle. lia.
    - pose proof (while_visits_offset _ _ _ _ _ _ _ _ Hv) as Hlt.
      apply (while_visits_inv full outLength Hb) in Hv
        as [(_ & _ & Hoff & _) _]; [|assumption]. simpl in Hlt. lia. }
  destruct Hoff as [Hoff Hstart].
  split; [assumption|]. split.
  { apply getitem_cut; [lia | assumption]. }
  split.
  { exists start. apply GetUncompressedSize_cut; assumption. }
  unfold decode.
  rewrite (GetUncompressedSize_cut full (offset t) _ _ Hh) by lia.
  cbn [bind]. rewrite Hbuf. cbn [bind].
  rewrite (len_cut full (offset t) Hoff).
  apply (while_loop_any_fuel _ _ _ (length full)).
  - destruct Hreach as [Hheads|(flags & x & Hv)].
    + apply while_heads_cut; [assumption | simpl; lia | assumption
                             | reflexivity].
    + eapply while_visit_cut;
        [exact Hoff | simpl; lia | exact Hv | reflexivity].
  - apply while_loop_fuel. simpl.
    rewrite <- (len_cut full (offset t) Hoff) at 1. unfold len. lia.
Qed.

(** C4, as the code has it. Take a stream of bytes with marker 0x11
    and cut it between two tokens, where its decoding is about to read a
    flag byte or to decode a token slot, and has produced fewer than
    [outLength] bytes.  On the cut stream [UncompressLZ77] terminates and
    raises nothing: it returns a buffer of [outLength] bytes in which every
    byte from [outIndex] on is zero, and whose first [outIndex] bytes are
    the first [outIndex] bytes of what the stream that was cut, and any
    stream of bytes with the cut stream as a prefix, decodes to. *)
Theorem cut_between_tokens_partial_result full outLength t :
  is_bytes full = true ->
  between_tokens full outLength t ->
  outIndex t < outLength ->
  UncompressLZ77 (take (Z.to_nat (offset t)) full) = Ok (outData t) /\
  len (outData t) = outLength /\
  (forall i, outIndex t <= i < outLength -> getitem (outData t) i = Ok 0) /\
  (forall r', UncompressLZ77 full = Ok r' ->
     len r' = outLength /\
     take (Z.to_nat (outIndex t)) r'
     = take (Z.to_nat (outIndex t)) (outData t)) /\
  forall more r',
    is_bytes more = true ->
    UncompressLZ77 (take (Z.to_nat (offset t)) full ++ more) = Ok r' ->
    len r' = outLength /\
    take (Z.to_nat (outIndex t)) r'
    = take (Z.to_nat (outIndex t)) (outData t).
Proof.
  intros Hb Hbetween Hshort.
  destruct (between_tokens_cut full outLength t Hb Hbetween)
    as (Hoff & Hm & (start & Hh) & Hd).
  set (s := take (Z.to_nat (offset t)) full) in *.
  destruct (is_bytes_take_drop (Z.to_nat (offset t)) full Hb) as [Hbs Hbd].
  assert (Hall : forall more, is_bytes more = true ->
            UncompressLZ77 s = Ok (outData t) /\
            len (outData t) = outLength /\
            (forall i, outIndex t <= i < outLength ->
               getitem (outData t) i = Ok 0) /\
            forall r', UncompressLZ77 (s ++ more) = Ok r' ->
              len r' = outLength /\
              take (Z.to_nat (outIndex t)) r'
              = take (Z.to_nat (outIndex t)) (outData t)).
  { intros more Hbm.
    destruct (truncated_stream_partial_result s more outLength start t
                (is_bytes_app _ _ Hbs Hbm) Hm Hh Hd Hshort)
      as (H1 & _ & H3 & H4 & H5). auto. }
  destruct (Hall (drop (Z.to_nat (offset t)) full) Hbd)
    as (H1 & H2 & H3 & H4).
  unfold s in H4. rewrite take_drop in H4.
  repeat (split; [assumption|]).
  intros more r' Hbm. now apply (Hall more Hbm).
Qed.

Lemma cut_between_tokens_partial_result_witness :
  let full := [0x11; 8; 0; 0; 0x40; 0x41; 0x60; 0] in
  let t := State 6 1 [0x41; 0; 0; 0; 0; 0; 0; 0] in
  UncompressLZ77 (take (Z.to_nat (offset t)) full) = Ok (outData t) /\
  len (outData t) = 8 /\
  (forall i, outIndex t <= i < 8 -> getitem (outData t) i = Ok 0) /\
  (forall r', UncompressLZ77 full = Ok r' ->
     len r' = 8 /\
     take (Z.to_nat (outIndex t)) r'
     = take (Z.to_nat (outIndex t)) (outData t)) /\
  forall more r',
    is_bytes more = true ->
    UncompressLZ77 (take (Z.to_nat (offset t)) full ++ more) = Ok r' ->
    len r' = 8 /\
    take (Z.to_nat (outIndex t)) r'
    = take (Z.to_nat (outIndex t)) (outData t).
Proof.
  cbv zeta.
  apply (cut_between_tokens_partial_result
           [0x11; 8; 0; 0; 0x40; 0x41; 0x60; 0] 8
           (State 6 1 [0x41; 0; 0; 0; 0; 0; 0; 0])).
  - reflexivity.
  - exists 4, (replicate 8 0). repeat split; try reflexivity.
    right. exists 0x40, 6.
    apply while_visits_here; [reflexivity | reflexivity |].
    eapply for_visits_later; [reflexivity|].
    apply for_visits_here.
  - simpl. lia.
Defined.
